(** * BLonD: the macro-particle beam and the longitudinal tracking kernel

    A shallow embedding of [beams/beams.py] and
    [trackers/longitudinal_tracker.py].

    Numbers.  The code computes with IEEE doubles; here every float is a
    real number ([R]) and every arithmetic operation is the exact one, so
    rounding, overflow, infinities and not-a-number are outside the model.
    Division is [Rdiv]; a statement that needs a quotient to behave as one
    carries the hypothesis that its divisor is not zero.  Where the code
    divides one Python float by another, as [LinearMap.track] does with the
    numbers the constructor of [Beam] stores, a zero divisor raises
    [ZeroDivisionError].

    Objects.  A Python instance is its attribute dictionary, a finite map
    from attribute names to values; reading a name that is not there raises
    [AttributeError].  An ndarray is the list of its entries: two attributes
    never share one array, as is the case for the arrays the [Beam]
    constructor allocates.

    Effects.  Methods run in a state-and-exception monad: an exception
    leaves the state as it was when it was raised, as in Python. *)

From Stdlib Require Import Reals Lra Lia ZArith.
From stdpp Require Import base strings gmap list.

(** ** Exceptions and the state-and-exception monad *)

Inductive exn :=
  | AttributeError
  | IndexError
  | ValueError
  | TypeError
  | ZeroDivisionError
  | SystemExit.

Inductive result (A : Type) :=
  | Ok (a : A)
  | Raise (e : exn).
Arguments Ok {A} a.
Arguments Raise {A} e.

Definition SE (S A : Type) : Type := S → S * result A.

Definition se_ret {S A} (a : A) : SE S A := λ s, (s, Ok a).
Definition se_raise {S A} (e : exn) : SE S A := λ s, (s, Raise e).
Definition se_bind {S A B} (m : SE S A) (k : A → SE S B) : SE S B :=
  λ s, match m s with
       | (s', Ok a) => k a s'
       | (s', Raise e) => (s', Raise e)
       end.
Definition se_get {S} : SE S S := λ s, (s, Ok s).
Definition se_modify {S} (f : S → S) : SE S unit := λ s, (f s, Ok tt).
Definition se_lift {S A} (r : result A) : SE S A := λ s, (s, r).

Declare Scope se_scope.
Delimit Scope se_scope with se.
Notation "'let*' x ':=' m 'in' k" := (se_bind m (λ x, k))
  (at level 10, x name, m at level 100, k at level 200) : se_scope.
Notation "m ';;' k" := (se_bind m (λ _, k))
  (at level 100, k at level 200, right associativity) : se_scope.

(** Pure computations that may raise. *)
Definition res_bind {A B} (r : result A) (k : A → result B) : result B :=
  match r with
  | Ok a => k a
  | Raise e => Raise e
  end.

Declare Scope res_scope.
Delimit Scope res_scope with res.
Notation "'let*' x ':=' m 'in' k" := (res_bind m (λ x, k))
  (at level 10, x name, m at level 100, k at level 200) : res_scope.

(** ** Values and objects *)

Inductive value :=
  | VInt (z : Z)              (* Python int *)
  | VFloat (r : R)            (* Python float or numpy float64 scalar *)
  | VArr (a : list R)         (* one-dimensional float64 ndarray *)
  | VIntArr (a : list Z).     (* one-dimensional int ndarray *)

(** An instance is its [__dict__]. *)
Abbreviation obj := (gmap string value).

Definition getattr (name : string) : SE obj value :=
  λ o, match o !! name with
       | Some v => (o, Ok v)
       | None => (o, Raise AttributeError)
       end.

Definition setattr (name : string) (v : value) : SE obj unit :=
  se_modify (λ o, <[name := v]> o).

(** ** The part of numpy the code uses *)

#[global] Instance Rlt_decision : RelDecision Rlt := Rlt_dec.
#[global] Instance Req_decision : EqDecision R := Req_dec_T.

(** The operand of an arithmetic expression: a scalar or a vector. *)
Inductive nd :=
  | Scalar (r : R)
  | Vec (l : list R).

Definition to_nd (v : value) : nd :=
  match v with
  | VInt z => Scalar (IZR z)
  | VFloat r => Scalar r
  | VArr a => Vec a
  | VIntArr a => Vec (map IZR a)
  end.

Definition of_nd (x : nd) : value :=
  match x with
  | Scalar r => VFloat r
  | Vec l => VArr l
  end.

(** [np.atleast_1d]: the entries, a scalar being one entry. *)
Definition nd_to_list (x : nd) : list R :=
  match x with
  | Scalar r => [r]
  | Vec l => l
  end.

Definition nd_map (f : R → R) (x : nd) : nd :=
  match x with
  | Scalar r => Scalar (f r)
  | Vec l => Vec (map f l)
  end.

(** Elementwise binary operation with numpy's broadcasting: shapes [(n,)]
    and [(m,)] are compatible when [n = m] or one of them is 1. *)
Definition nd_binop (f : R → R → R) (x y : nd) : result nd :=
  match x, y with
  | Scalar a, Scalar b => Ok (Scalar (f a b))
  | Scalar a, Vec l => Ok (Vec (map (f a) l))
  | Vec l, Scalar b => Ok (Vec (map (λ a, f a b) l))
  | Vec l1, Vec l2 =>
      if decide (length l1 = length l2) then Ok (Vec (zip_with f l1 l2))
      else match l1, l2 with
           | [a], _ => Ok (Vec (map (f a) l2))
           | _, [b] => Ok (Vec (map (λ a, f a b) l1))
           | _, _ => Raise ValueError
           end
  end.

(** [x / y] where a scalar operand is a Python float: between two scalars a
    zero divisor raises [ZeroDivisionError]; with an ndarray operand the
    quotient is numpy's, entry by entry. *)
Definition nd_truediv (x y : nd) : result nd :=
  match x, y with
  | Scalar a, Scalar b =>
      if decide (b = 0%R) then Raise ZeroDivisionError
      else Ok (Scalar (a / b)%R)
  | _, _ => nd_binop Rdiv x y
  end.

(** [x ** -2]: for a Python float, zero raises [ZeroDivisionError]. *)
Definition py_pow_minus_2 (x : nd) : result nd :=
  match x with
  | Scalar a =>
      if decide (a = 0%R) then Raise ZeroDivisionError
      else Ok (Scalar (/ (a ^ 2))%R)
  | Vec l => Ok (Vec (map (λ a, / (a ^ 2))%R l))
  end.

(** [target += rhs] for a float right-hand side: an ndarray target is updated
    in place, so the right-hand side must broadcast to the target's own
    shape, and an int array cannot take floats; a scalar target is rebound
    to the sum. *)
Definition iadd (target : value) (rhs : nd) : result value :=
  match target with
  | VArr a =>
      match rhs with
      | Scalar r => Ok (VArr (map (λ x, x + r)%R a))
      | Vec b =>
          if decide (length b = length a) then Ok (VArr (zip_with Rplus a b))
          else match b with
               | [r] => Ok (VArr (map (λ x, x + r)%R a))
               | _ => Raise ValueError
               end
      end
  | VIntArr _ => Raise TypeError
  | VInt _ | VFloat _ =>
      (let* s := nd_binop Rplus (to_nd target) rhs in Ok (of_nd s))%res
  end.

(** [np.where(mask)[0]]: the positions of the true entries, ascending. *)
Fixpoint where_from (k : nat) (mask : list bool) : list nat :=
  match mask with
  | [] => []
  | b :: mask' =>
      if b then k :: where_from (S k) mask' else where_from (S k) mask'
  end.

Definition np_where (mask : list bool) : list nat := where_from 0 mask.

(** [a[itemindex]] for a list of positions: a position past the end raises
    [IndexError]. *)
Fixpoint gather {A} (a : list A) (itemindex : list nat) : result (list A) :=
  match itemindex with
  | [] => Ok []
  | i :: rest =>
      match a !! i with
      | Some x => (let* xs := gather a rest in Ok (x :: xs))%res
      | None => Raise IndexError
      end
  end.

Definition fancy_index (v : value) (itemindex : list nat) : result (list R) :=
  match v with
  | VArr a => gather a itemindex
  | VIntArr a => gather (map IZR a) itemindex
  | VInt _ | VFloat _ => Raise TypeError
  end.

(** [a[itemindex] = x]: all positions are checked before any is written. *)
Definition scatter {A} (a : list A) (itemindex : list nat) (x : A)
  : result (list A) :=
  if forallb (λ i, bool_decide (i < length a)) itemindex
  then Ok (foldr (λ i acc, <[i := x]> acc) a itemindex)
  else Raise IndexError.

Definition fancy_assign_zero (v : value) (itemindex : list nat) : result value :=
  match v with
  | VArr a => (let* a' := scatter a itemindex 0%R in Ok (VArr a'))%res
  | VIntArr a => (let* a' := scatter a itemindex 0%Z in Ok (VIntArr a'))%res
  | VInt _ | VFloat _ => Raise TypeError
  end.

Definition Rsum (l : list R) : R := foldr Rplus 0%R l.

(** [np.mean] and [np.std] (population form, [ddof = 0]):
    [std = sqrt(mean(abs(x - x.mean())**2))]. *)
Definition np_mean (l : list R) : R := (Rsum l / INR (length l))%R.

Definition np_std (l : list R) : R :=
  sqrt (np_mean (map (λ x, Rabs (x - np_mean l) ^ 2)%R l)).

(** [np.zeros([n])] and [np.arange(start, stop, dtype=int)]. *)
Definition np_zeros (n : Z) : result (list R) :=
  if (n <? 0)%Z then Raise ValueError else Ok (replicate (Z.to_nat n) 0%R).

Definition np_arange (start stop : Z) : list Z :=
  map (λ k, (start + Z.of_nat k)%Z) (seq 0 (Z.to_nat (stop - start))).

(** ** beams/beams.py: class Beam *)

(** The ring and beam configuration handed to the constructor; [beta],
    [gamma], [energy] and [momentum] are two-dimensional arrays of which the
    constructor reads entry [[0][0]]. *)
Record GeneralParameters := {
  mass : R;
  charge : Z;
  beta : list (list R);
  gamma : list (list R);
  energy : list (list R);
  momentum : list (list R)
}.

Definition index_0_0 (a : list (list R)) : result R :=
  match a with
  | (x :: _) :: _ => Ok x
  | _ => Raise IndexError
  end.

(** A number as the caller writes it: [intensity] is documented as a float. *)
Inductive pynumber :=
  | PyInt (z : Z)
  | PyFloat (r : R).

Definition pynumber_value (x : pynumber) : value :=
  match x with
  | PyInt z => VInt z
  | PyFloat r => VFloat r
  end.

Definition pynumber_R (x : pynumber) : R :=
  match x with
  | PyInt z => IZR z
  | PyFloat r => r
  end.

(** [x / n] between Python numbers under [from __future__ import division]. *)
Definition py_truediv (x : pynumber) (n : Z) : result R :=
  if (n =? 0)%Z then Raise ZeroDivisionError
  else Ok (pynumber_R x / IZR n)%R.

(** [Beam.__init__]; [n_macroparticles] is the value of
    [int(n_macroparticles)].  The statements run in the order of the source,
    on an instance that starts without attributes. *)
Definition Beam_init (GeneralParameters : GeneralParameters)
    (n_macroparticles : Z) (intensity : pynumber) : SE obj unit :=
  (setattr "mass" (VFloat (mass GeneralParameters)) ;;
   setattr "charge" (VInt (charge GeneralParameters)) ;;
   let* b := se_lift (index_0_0 (beta GeneralParameters)) in
   setattr "beta" (VFloat b) ;;
   let* g := se_lift (index_0_0 (gamma GeneralParameters)) in
   setattr "gamma" (VFloat g) ;;
   let* en := se_lift (index_0_0 (energy GeneralParameters)) in
   setattr "energy" (VFloat en) ;;
   let* p := se_lift (index_0_0 (momentum GeneralParameters)) in
   setattr "momentum" (VFloat p) ;;
   let* zt := se_lift (np_zeros n_macroparticles) in
   setattr "dt" (VArr zt) ;;
   let* ze := se_lift (np_zeros n_macroparticles) in
   setattr "dE" (VArr ze) ;;
   setattr "mean_dt" (VInt 0) ;;
   setattr "mean_dE" (VInt 0) ;;
   setattr "sigma_dt" (VInt 0) ;;
   setattr "sigma_dE" (VInt 0) ;;
   setattr "intensity" (pynumber_value intensity) ;;
   setattr "n_macroparticles" (VInt n_macroparticles) ;;
   let* q := se_lift (py_truediv intensity n_macroparticles) in
   setattr "ratio" (VFloat q) ;;
   setattr "n_macroparticles_lost" (VInt 0) ;;
   setattr "id" (VIntArr (np_arange 1 (n_macroparticles + 1))))%se.

(** [Beam(GeneralParameters, n_macroparticles, intensity)]: the instance, or
    the exception that left [__init__]. *)
Definition Beam_new (GeneralParameters : GeneralParameters)
    (n_macroparticles : Z) (intensity : pynumber) : result obj :=
  match Beam_init GeneralParameters n_macroparticles intensity ∅ with
  | (self, Ok _) => Ok self
  | (_, Raise e) => Raise e
  end.

(** [Beam.statistics]. *)
Definition statistics : SE obj unit :=
  (let* id := getattr "id" in
   let itemindex :=
     np_where (map (λ x, bool_decide (x ≠ 0%R)) (nd_to_list (to_nd id))) in
   let* dt := getattr "dt" in
   let* dt_alive := se_lift (fancy_index dt itemindex) in
   setattr "mean_dt" (VFloat (np_mean dt_alive)) ;;
   let* dE := getattr "dE" in
   let* dE_alive := se_lift (fancy_index dE itemindex) in
   setattr "mean_dE" (VFloat (np_mean dE_alive)) ;;
   let* dt := getattr "dt" in
   let* dt_alive := se_lift (fancy_index dt itemindex) in
   setattr "sigma_dt" (VFloat (np_std dt_alive)) ;;
   let* dE := getattr "dE" in
   let* dE_alive := se_lift (fancy_index dE itemindex) in
   setattr "sigma_dE" (VFloat (np_std dE_alive)) ;;
   let* sigma_dE := getattr "sigma_dE" in
   let* sigma_dt := getattr "sigma_dt" in
   let* e1 := se_lift (nd_binop Rmult (Scalar PI) (to_nd sigma_dE)) in
   let* e2 := se_lift (nd_binop Rmult e1 (to_nd sigma_dt)) in
   setattr "epsn_rms_l" (of_nd e2) ;;
   let* id := getattr "id" in
   let lost :=
     np_where (map (λ x, bool_decide (x = 0%R)) (nd_to_list (to_nd id))) in
   setattr "n_macroparticles_lost" (VInt (Z.of_nat (length lost))))%se.

(** The loss cut shared by the two methods below, on the coordinate stored
    under [coord]:
    [itemindex = np.where((self.x - x_min)*(x_max - self.x) < 0)[0]],
    then [self.id[itemindex] = 0] when [itemindex] is not empty. *)
Definition losses_cut (coord : string) (x_min x_max : R) : SE obj unit :=
  (let* x := getattr coord in
   let* lo := se_lift (nd_binop Rminus (to_nd x) (Scalar x_min)) in
   let* x := getattr coord in
   let* hi := se_lift (nd_binop Rminus (Scalar x_max) (to_nd x)) in
   let* prod := se_lift (nd_binop Rmult lo hi) in
   let itemindex :=
     np_where (map (λ p, bool_decide (p < 0)%R) (nd_to_list prod)) in
   if decide (length itemindex ≠ 0)
   then let* id := getattr "id" in
        let* id' := se_lift (fancy_assign_zero id itemindex) in
        setattr "id" id'
   else se_ret tt)%se.

(** [Beam.losses_longitudinal_cut] and [Beam.losses_energy_cut]. *)
Definition losses_longitudinal_cut (dt_min dt_max : R) : SE obj unit :=
  losses_cut "dt" dt_min dt_max.

Definition losses_energy_cut (dE_min dE_max : R) : SE obj unit :=
  losses_cut "dE" dE_min dE_max.

(** ** trackers/longitudinal_tracker.py *)

(** The speed of light of [scipy.constants]. *)
Definition c : R := 299792458%R.

(** The ring and RF configuration ([trackers.ring_and_RFstation]), as far as
    the tracker reads its attributes; [ring_length] is the attribute
    [length]. *)
Record Ring := mkRing {
  harmonic : list R;
  voltage : list R;
  phi_offset : list R;
  circumference : R;
  ring_length : R;
  alpha_array : list R;
  counter : Z
}.

Definition Ring_advance (ring : Ring) : Ring :=
  mkRing (harmonic ring) (voltage ring) (phi_offset ring) (circumference ring)
         (ring_length ring) (alpha_array ring) (counter ring + 1).

(** What one run of the tracker can touch: the one ring object every element
    refers to, the beam, the attribute [p_increment] of the tracker's one
    [Kick_acceleration] object, and the text printed so far. *)
Record World := mkWorld {
  w_ring : Ring;
  w_beam : obj;
  w_p_increment : R;
  w_stdout : list string
}.

Definition on_beam {A} (m : SE obj A) : SE World A :=
  λ w, let (beam, r) := m (w_beam w) in
       (mkWorld (w_ring w) beam (w_p_increment w) (w_stdout w), r).

Definition set_p_increment (p : R) : SE World unit :=
  se_modify (λ w, mkWorld (w_ring w) (w_beam w) p (w_stdout w)).

Definition advance_counter : SE World unit :=
  se_modify (λ w, mkWorld (Ring_advance (w_ring w)) (w_beam w)
                          (w_p_increment w) (w_stdout w)).

Definition print (line : string) : SE World unit :=
  se_modify (λ w, mkWorld (w_ring w) (w_beam w) (w_p_increment w)
                          (w_stdout w ++ [line])).

Record Kick := mkKick {
  k_harmonic : R;
  k_voltage : R;
  k_phi_offset : R
}.

Record Drift := mkDrift {
  d_solver : string
}.

Record LinearMap := mkLinearMap {
  lm_circumference : R;
  lm_alpha : R;
  lm_Qs : R
}.

Inductive Element :=
  | EKick (k : Kick)
  | EKick_acceleration
  | EDrift (d : Drift).

Record Longitudinal_tracker := mkTracker {
  lt_solver : string;
  kicks : list Kick;
  elements : list Element
}.

(** [for x in l: f(x)]. *)
Fixpoint for_each {S A} (f : A → SE S unit) (l : list A) : SE S unit :=
  match l with
  | [] => se_ret tt
  | x :: l' => (f x ;; for_each f l')%se
  end.

(** [Kick.__init__]: the three entries at index [i]. *)
Definition Kick_init (ring : Ring) (i : nat) : result Kick :=
  match harmonic ring !! i with
  | None => Raise IndexError
  | Some h =>
      match voltage ring !! i with
      | None => Raise IndexError
      | Some v =>
          match phi_offset ring !! i with
          | None => Raise IndexError
          | Some phi => Ok (mkKick h v phi)
          end
      end
  end.

Fixpoint build_kicks (ring : Ring) (indices : list nat) : result (list Kick) :=
  match indices with
  | [] => Ok []
  | i :: rest =>
      (let* kick := Kick_init ring i in
       let* ks := build_kicks ring rest in
       Ok (kick :: ks))%res
  end.

Definition Drift_init (solver : string) : Drift := mkDrift solver.

Definition LinearMap_init (circumference alpha Qs : R) : LinearMap :=
  mkLinearMap circumference alpha Qs.

Section Tracker.

(** The elementary charge [e] of [scipy.constants], whose digits follow the
    CODATA release the installed scipy carries. *)
Variable elementary_charge : R.

(** Members of the ring configuration the tracker calls or reads and whose
    code is in [trackers.ring_and_RFstation]: they may depend on the ring's
    turn counter and do not change anything. *)
Variable p0_i p0_f : Ring → R.
Variable beta_i beta_f : Ring → obj → R.

(** Modelled from the spec: the slip factor [ring.eta(beam, delta)],
    "evaluated per particle against its own relative-momentum offset", and
    the leading-order slip factor [ring._eta0(beam, alpha_array)], a
    scalar. *)
Variable eta : Ring → obj → R → R.
Variable _eta0 : Ring → obj → list R → R.

(** [Kick.track]. *)
Definition Kick_track (self : Kick) : SE World unit :=
  on_beam
    (let* dE := getattr "dE" in
     let* theta := getattr "theta" in
     let rhs :=
       nd_map (λ t, elementary_charge * k_voltage self
                    * sin (k_harmonic self * t + k_phi_offset self))%R
              (to_nd theta) in
     let* dE' := se_lift (iadd dE rhs) in
     setattr "dE" dE')%se.

(** [Kick_acceleration.track]. *)
Definition Kick_acceleration_track : SE World unit :=
  (let* w := se_get in
   let* dE := on_beam (getattr "dE") in
   let rhs :=
     Scalar (- (beta_i (w_ring w) (w_beam w) + beta_f (w_ring w) (w_beam w))
             / 2 * c * w_p_increment w)%R in
   let* dE' := se_lift (iadd dE rhs) in
   on_beam (setattr "dE" dE') ;;
   advance_counter)%se.

(** [Drift.track].  The dictionary display evaluates both entries before the
    lookup; [KeyError] from the lookup is the only exception caught. *)
Definition Drift_track (self : Drift) : SE World unit :=
  (let* w := se_get in
   let ring := w_ring w in
   let beam := w_beam w in
   (* 'full' *)
   let* theta := on_beam (getattr "theta") in
   let* turn :=
     se_lift (nd_binop Rmult (Scalar (beta_f ring beam / beta_i ring beam)%R)
                       (to_nd theta)) in
   let* delta := on_beam (getattr "delta") in
   let eta_delta := nd_map (eta ring beam) (to_nd delta) in
   let* delta := on_beam (getattr "delta") in
   let* x := se_lift (nd_binop Rmult eta_delta (to_nd delta)) in
   let slip :=
     nd_map (λ x, 2 * PI * (1 / (1 - x) - 1) * ring_length ring
                  / circumference ring)%R x in
   let* full := se_lift (nd_binop Rplus turn slip) in
   (* 'simple' *)
   let* theta := on_beam (getattr "theta") in
   let* delta := on_beam (getattr "delta") in
   let slip0 :=
     nd_map (λ d, 2 * PI * _eta0 ring beam (alpha_array ring) * d
                  * ring_length ring / circumference ring)%R
            (to_nd delta) in
   let* simple := se_lift (nd_binop Rplus (to_nd theta) slip0) in
   if decide (d_solver self = "full") then
     on_beam (setattr "theta" (of_nd full))
   else if decide (d_solver self = "simple") then
     on_beam (setattr "theta" (of_nd simple))
   else
     print "ERROR: Choice of longitudinal solver not recognized! Aborting..." ;;
     se_raise SystemExit)%se.

(** [Longitudinal_tracker.__init__]. *)
Definition Longitudinal_tracker_init (solver : string)
  : SE World Longitudinal_tracker :=
  (let* w := se_get in
   let ring := w_ring w in
   (if decide (length (harmonic ring) = length (voltage ring)
               ∧ length (voltage ring) = length (phi_offset ring))
    then se_ret tt
    else print
      "Warning: parameter lists for RFSystems do not have the same length!") ;;
   let* kicks := se_lift (build_kicks ring (seq 0 (length (harmonic ring)))) in
   set_p_increment 0 ;;
   se_ret (mkTracker solver kicks
             (map EKick kicks ++ [EKick_acceleration]
              ++ [EDrift (Drift_init solver)])))%se.

Definition Element_track (longMap : Element) : SE World unit :=
  match longMap with
  | EKick k => Kick_track k
  | EKick_acceleration => Kick_acceleration_track
  | EDrift d => Drift_track d
  end.

(** [Longitudinal_tracker.track]. *)
Definition Longitudinal_tracker_track (self : Longitudinal_tracker)
  : SE World unit :=
  (let* w := se_get in
   set_p_increment (p0_f (w_ring w) - p0_i (w_ring w))%R ;;
   for_each Element_track (elements self))%se.

(** [LinearMap.track].  The numbers [gamma] and [beta] of the beam, the
    members of the map and [c] are Python floats, so each of the four
    quotients raises [ZeroDivisionError] on a zero divisor: [gamma ** -2],
    the quotient by the circumference, [eta * c / omega_s] in the line of
    [z], and [omega_s / eta] in the line of [dp], which is reached after [z]
    has been assigned.  (Were they numpy scalars, a zero divisor would give
    an infinity or a not-a-number, which the model leaves out.) *)
Definition LinearMap_track (self : LinearMap) : SE World unit :=
  on_beam
    (let* gamma := getattr "gamma" in
     let* g2 := se_lift (py_pow_minus_2 (to_nd gamma)) in
     let eta := nd_map (λ x, lm_alpha self - x)%R g2 in
     let* beta := getattr "beta" in
     let* omega_0 :=
       se_lift (nd_truediv (nd_map (λ b, 2 * PI * b * c)%R (to_nd beta))
                           (Scalar (lm_circumference self))) in
     let omega_s := nd_map (λ o, lm_Qs self * o)%R omega_0 in
     let dQs := (2 * PI * lm_Qs self)%R in
     let cosdQs := cos dQs in
     let sindQs := sin dQs in
     let* z0 := getattr "z" in
     let* dp0 := getattr "dp" in
     let* a1 := se_lift (nd_binop Rmult (to_nd z0) (Scalar cosdQs)) in
     let* a2 := se_lift (nd_truediv (nd_map (λ x, x * c)%R eta) omega_s) in
     let* a3 := se_lift (nd_binop Rmult a2 (to_nd dp0)) in
     let* z := se_lift (nd_binop Rminus a1 (nd_map (λ x, x * sindQs)%R a3)) in
     setattr "z" (of_nd z) ;;
     let* b1 := se_lift (nd_binop Rmult (to_nd dp0) (Scalar cosdQs)) in
     let* b2 := se_lift (nd_truediv omega_s eta) in
     let* b3 := se_lift (nd_binop Rmult (nd_map (λ x, x / c)%R b2) (to_nd z0)) in
     let* dp := se_lift (nd_binop Rplus b1 (nd_map (λ x, x * sindQs)%R b3)) in
     setattr "dp" (of_nd dp))%se.

(** ** Vocabulary of the statements *)

(** A beam as the class keeps it: the three per-particle arrays, of one
    length. *)
Definition is_Beam (b : obj) (dt dE : list R) (ids : list Z) : Prop :=
  b !! "dt" = Some (VArr dt) ∧ b !! "dE" = Some (VArr dE)
  ∧ b !! "id" = Some (VIntArr ids)
  ∧ length dt = length ids ∧ length dE = length ids.

(** What a loss cut with bounds [x_min], [x_max] on the coordinates [xs] makes
    of the identifiers [ids]: zero where the product is negative, the old
    entry everywhere else. *)
Definition cut_result (x_min x_max : R) (xs : list R) (ids ids' : list Z)
  : Prop :=
  length ids' = length ids
  ∧ ∀ i x k, xs !! i = Some x → ids !! i = Some k →
      (((x - x_min) * (x_max - x) < 0)%R → ids' !! i = Some 0%Z)
      ∧ (¬ ((x - x_min) * (x_max - x) < 0)%R → ids' !! i = Some k).

(** The entries of [a] at the true positions of [mask]. *)
Fixpoint select {A} (mask : list bool) (a : list A) : list A :=
  match mask, a with
  | b :: mask', x :: a' => if b then x :: select mask' a' else select mask' a'
  | _, _ => []
  end.

(** The masks [self.id != 0] and [self.id == 0]. *)
Definition alive_mask (ids : list Z) : list bool :=
  map (λ x, bool_decide (x ≠ 0%R)) (map IZR ids).

Definition lost_mask (ids : list Z) : list bool :=
  map (λ x, bool_decide (x = 0%R)) (map IZR ids).

(** Sums and counts over the alive particles, written over the particle
    index as the specification words them. *)
Fixpoint sum_alive (f : R → R) (ids : list Z) (xs : list R) : R :=
  match ids, xs with
  | k :: ids', x :: xs' =>
      ((if decide (k = 0%Z) then 0 else f x) + sum_alive f ids' xs')%R
  | _, _ => 0%R
  end.

Fixpoint count_alive (ids : list Z) : nat :=
  match ids with
  | [] => 0
  | k :: ids' => (if decide (k = 0%Z) then 0 else 1) + count_alive ids'
  end.

Fixpoint count_lost (ids : list Z) : nat :=
  match ids with
  | [] => 0
  | k :: ids' => (if decide (k = 0%Z) then 1 else 0) + count_lost ids'
  end.

Definition mean_alive (ids : list Z) (xs : list R) : R :=
  (sum_alive (λ x, x) ids xs / INR (count_alive ids))%R.

Definition sigma_alive (ids : list Z) (xs : list R) : R :=
  sqrt (sum_alive (λ x, (x - mean_alive ids xs) ^ 2)%R ids xs
        / INR (count_alive ids)).

(** A configuration and beams to run the statements on. *)
Definition example_GeneralParameters : GeneralParameters :=
  {| mass := 938272046; charge := 1; beta := [[1%R]]; gamma := [[7%R]];
     energy := [[6567904322%R]]; momentum := [[6500000000%R]] |}.

Definition example_beam : obj :=
  <["id" := VIntArr [1; 2; 3]%Z]>
    (<["dE" := VArr [-2; 0; 2]%R]> (<["dt" := VArr [-1; 0; 1]%R]> ∅)).


Definition example_ring : Ring :=
  mkRing [4620; 18480]%R [6000000; 600000]%R [0; PI]%R 6911 6911
         [0.0005]%R 0.

(** A beam in the tracker's coordinates. *)
Definition example_tracked_beam : obj :=
  <["delta" := VArr [0; 0.001]%R]>
    (<["theta" := VArr [0; 0.5]%R]> (<["dE" := VArr [0; 1]%R]> ∅)).

Definition example_world : World :=
  mkWorld example_ring example_tracked_beam 0 [].



Definition moving_beam : obj :=
  <["dp" := VArr [1%R]]>
    (<["z" := VArr [0%R]]>
      (<["beta" := VFloat 1]> (<["gamma" := VFloat 7]> ∅))).

(** Stand-ins for the elementary charge and for the members of the ring
    configuration, to run the statements of the tracker on: a momentum
    program that rises with the turn counter, a synchronous beta close to
    one, a slip factor of first order. *)
Definition example_e : R := 1.602176565e-19.
Definition example_p0_i (ring : Ring) : R :=
  (26000000000 + 1000000 * IZR (counter ring))%R.
Definition example_p0_f (ring : Ring) : R :=
  (26000000000 + 1000000 * IZR (counter ring + 1))%R.
Definition example_beta_i (ring : Ring) (beam : obj) : R := 0.999%R.
Definition example_beta_f (ring : Ring) (beam : obj) : R := 0.9991%R.
Definition example_eta (ring : Ring) (beam : obj) (delta : R) : R :=
  (0.0005 + 0.00001 * delta)%R.
Definition example_eta0 (ring : Ring) (beam : obj) (alpha : list R) : R :=
  0.0005%R.


(** ** The rest of class Beam *)

(** [a - b] between two attribute values; two ints give an int. *)
Definition py_sub (x y : value) : result value :=
  match x, y with
  | VInt a, VInt b => Ok (VInt (a - b))
  | _, _ => (let* d := nd_binop Rminus (to_nd x) (to_nd y) in Ok (of_nd d))%res
  end.

(** The property [Beam.n_macroparticles_alive]. *)
Definition n_macroparticles_alive : SE obj value :=
  (let* n := getattr "n_macroparticles" in
   let* lost := getattr "n_macroparticles_lost" in
   se_lift (py_sub n lost))%se.

Section Separatrix.

(** Modelled from the spec: [trackers.utilities.is_in_separatrix], whose code
    is not in this repository's files, "a function taking (configuration,
    RF-section parameters, beam, dt-array, dE-array) and returning a boolean
    array, one entry per particle", without side effects. *)
Variable RFSectionParameters : Type.
Variable is_in_separatrix :
  GeneralParameters → RFSectionParameters → obj → value → value → list bool.

(** [Beam.losses_separatrix]. *)
Definition losses_separatrix (GeneralParameters : GeneralParameters)
    (RFSectionParameters : RFSectionParameters) (Beam : obj) : SE obj unit :=
  (let* dt := getattr "dt" in
   let* dE := getattr "dE" in
   let itemindex :=
     np_where (map (λ inside, bool_decide (inside = false))
                   (is_in_separatrix GeneralParameters RFSectionParameters
                                     Beam dt dE)) in
   if decide (length itemindex ≠ 0)
   then let* id := getattr "id" in
        let* id' := se_lift (fancy_assign_zero id itemindex) in
        setattr "id" id'
   else se_ret tt)%se.

End Separatrix.

(** ** Vocabulary of the further statements *)

(** The identifiers after the particles at the true positions of [mask] have
    been marked lost. *)
Definition mark_lost (mask : list bool) (ids : list Z) : list Z :=
  zip_with (λ (m : bool) k, if m then 0%Z else k) mask ids.

(** The particles a cut with bounds [x_min], [x_max] takes out. *)
Definition outside_mask (x_min x_max : R) (xs : list R) : list bool :=
  map (λ x, bool_decide ((x - x_min) * (x_max - x) < 0)%R) xs.

(** The energy one particle at phase [theta] receives from a list of kicks. *)
Definition kick_sum (kicks : list Kick) (theta : R) : R :=
  foldr (λ k acc, elementary_charge * k_voltage k
                  * sin (k_harmonic k * theta + k_phi_offset k) + acc)%R
        0%R kicks.

(** The new [theta] of one particle under the two solvers of [Drift]. *)
Definition drift_full (ring : Ring) (beam : obj) (theta delta : R) : R :=
  (beta_f ring beam / beta_i ring beam * theta
   + 2 * PI * (1 / (1 - eta ring beam delta * delta) - 1)
     * (ring_length ring / circumference ring))%R.

Definition drift_simple (ring : Ring) (beam : obj) (theta delta : R) : R :=
  (theta + 2 * PI * _eta0 ring beam (alpha_array ring) * delta
           * (ring_length ring / circumference ring))%R.

(** The energies after the kicks and the acceleration kick of one turn:
    every kick has been added, then the ramp term, whose betas the ring
    computes from its state before the turn and from the kicked beam. *)
Definition turn_energy (ring : Ring) (beam : obj) (kicks : list Kick)
    (dE theta : list R) : list R :=
  let kicked := zip_with (λ d t, d + kick_sum kicks t)%R dE theta in
  let beam1 := <["dE" := VArr kicked]> beam in
  map (λ d, d + - ((beta_i ring beam1 + beta_f ring beam1) / 2) * c
                * (p0_f ring - p0_i ring))%R kicked.

(** The tracker that the constructor builds from [example_ring]. *)
Definition example_tracker (solver : string) : Longitudinal_tracker :=
  mkTracker solver
    [mkKick 4620 6000000 0; mkKick 18480 600000 PI]
    [EKick (mkKick 4620 6000000 0); EKick (mkKick 18480 600000 PI);
     EKick_acceleration; EDrift (mkDrift solver)].

(** A beam whose particles are all on the synchronous momentum. *)
Definition synchronous_beam : obj :=
  <["delta" := VArr [0; 0]%R]> (<["theta" := VArr [0; 0.5]%R]> ∅).

(** A beam of [LinearMap] whose [z] and [dp] do not have one length. *)
Definition ragged_beam : obj :=
  <["dp" := VArr [0; 1; 2]%R]>
    (<["z" := VArr [0; 1]%R]>
      (<["beta" := VFloat 1]> (<["gamma" := VFloat 7]> ∅))).
(** * Properties *)

(** ** Running the monad *)

Lemma getattr_Some (o : obj) name v :
  o !! name = Some v → getattr name o = (o, Ok v).
Proof. intros H. unfold getattr. by rewrite H. Qed.

Lemma getattr_None (o : obj) name :
  o !! name = None → getattr name o = (o, Raise AttributeError).
Proof. intros H. unfold getattr. by rewrite H. Qed.

Lemma se_bind_Ok {S A B} (m : SE S A) (k : A → SE S B) s s' a :
  m s = (s', Ok a) → se_bind m k s = k a s'.
Proof. intros H. unfold se_bind. by rewrite H. Qed.

Lemma se_bind_Raise {S A B} (m : SE S A) (k : A → SE S B) s s' e :
  m s = (s', Raise e) → se_bind m k s = (s', Raise e).
Proof. intros H. unfold se_bind. by rewrite H. Qed.

(** One step of symbolic execution: unfold the monad and the numpy
    operations, and read attributes from the hypotheses. *)
Ltac se_run :=
  repeat first
    [ progress unfold se_bind, se_lift, se_ret, se_raise, se_get, se_modify,
        setattr, getattr, res_bind, on_beam, set_p_increment,
        advance_counter, print
    | progress cbn beta iota zeta delta
        [to_nd of_nd nd_to_list nd_map nd_binop nd_truediv py_pow_minus_2
         iadd fancy_index fancy_assign_zero fst snd w_ring w_beam
         w_p_increment w_stdout]
    | rewrite lookup_insert_eq
    | rewrite lookup_insert_ne by done
    | match goal with
      | H : ?m !! ?k = _ |- context [?m !! ?k] => rewrite H
      end ].

(** ** Positions selected by a mask *)

Lemma elem_of_where_from k mask j :
  j ∈ where_from k mask ↔ k ≤ j ∧ mask !! (j - k) = Some true.
Proof.
  revert k. induction mask as [|b mask IH]; intros k.
  - simpl. split.
    + intros Hin. by apply elem_of_nil in Hin.
    + intros [_ Hl]. by rewrite lookup_nil in Hl.
  - assert (Hhead : k ≤ j ∧ (b :: mask) !! (j - k) = Some true
                    ↔ (j = k ∧ b = true)
                      ∨ (S k ≤ j ∧ mask !! (j - S k) = Some true)).
    { destruct (decide (j = k)) as [->|Hne].
      - replace (k - k) with 0 by lia. simpl. split.
        + intros [_ [= ->]]. by left.
        + intros [[_ ->]|[Hle _]]; [done | lia].
      - split.
        + intros [Hle Hl]. right. split; [lia|].
          replace (j - k) with (S (j - S k)) in Hl by lia. done.
        + intros [[-> _]|[Hle Hl]]; [done|]. split; [lia|].
          replace (j - k) with (S (j - S k)) by lia. done. }
    rewrite Hhead. simpl. destruct b.
    + rewrite elem_of_cons, IH. intuition congruence.
    + rewrite IH. intuition congruence.
Qed.

Lemma elem_of_np_where mask j :
  j ∈ np_where mask ↔ mask !! j = Some true.
Proof.
  unfold np_where. rewrite elem_of_where_from.
  replace (j - 0) with j by lia. intuition lia.
Qed.

Lemma lookup_foldr_insert {A} (a : list A) (itemindex : list nat) x j :
  foldr (λ i acc, <[i := x]> acc) a itemindex !! j
  = if decide (j ∈ itemindex ∧ j < length a) then Some x else a !! j.
Proof.
  induction itemindex as [|i rest IH]; cbn [foldr].
  - case_decide as Hin; [|done]. destruct Hin as [Hin _].
    by apply elem_of_nil in Hin.
  - assert (Hlen : length (foldr (λ i acc, <[i := x]> acc) a rest) = length a).
    { clear. induction rest; simpl; [done|]. by rewrite length_insert. }
    destruct (decide (i = j)) as [->|Hne].
    + destruct (decide (j < length a)) as [Hlt|Hge].
      * rewrite list_lookup_insert_eq by lia.
        rewrite decide_True; [done|]. split; [apply elem_of_cons; by left|done].
      * rewrite list_insert_ge by lia. rewrite IH.
        rewrite !decide_False; [done| |].
        -- intros [_ Hlt]. lia.
        -- intros [_ Hlt]. lia.
    + rewrite list_lookup_insert_ne by done. rewrite IH.
      destruct (decide (j ∈ rest ∧ j < length a)) as [[Hin Hlt]|Hnot].
      * rewrite decide_True; [done|]. split; [|done].
        apply elem_of_cons. by right.
      * rewrite decide_False; [done|]. intros [Hin Hlt]. apply Hnot.
        apply elem_of_cons in Hin as [->|Hin]; done.
Qed.

Lemma length_foldr_insert {A} (a : list A) (itemindex : list nat) x :
  length (foldr (λ i acc, <[i := x]> acc) a itemindex) = length a.
Proof. induction itemindex; simpl; [done|]. by rewrite length_insert. Qed.

Lemma scatter_np_where {A} (a : list A) (mask : list bool) x :
  length mask = length a →
  ∃ a', scatter a (np_where mask) x = Ok a'
        ∧ length a' = length a
        ∧ ∀ j, a' !! j = if decide (mask !! j = Some true) then
                            Some x else a !! j.
Proof.
  intros Hlen. unfold scatter.
  assert (Hall : forallb (λ i, bool_decide (i < length a)) (np_where mask) = true).
  { apply forallb_forall. intros i Hi. apply bool_decide_eq_true.
    apply list_elem_of_In, elem_of_np_where, lookup_lt_Some in Hi. lia. }
  rewrite Hall. eexists. split; [done|]. split; [apply length_foldr_insert|].
  intros j. rewrite lookup_foldr_insert.
  destruct (decide (mask !! j = Some true)) as [Hm|Hm].
  - rewrite decide_True; [done|]. split; [by apply elem_of_np_where|].
    apply lookup_lt_Some in Hm. lia.
  - rewrite decide_False; [done|]. intros [Hin _]. by apply elem_of_np_where in Hin.
Qed.

(** ** Loss cuts *)

Lemma losses_cut_run coord (b : obj) xs ids x_min x_max :
  b !! coord = Some (VArr xs) → b !! "id" = Some (VIntArr ids) →
  length xs = length ids →
  ∃ ids', losses_cut coord x_min x_max b = (<["id" := VIntArr ids']> b, Ok tt)
          ∧ cut_result x_min x_max xs ids ids'.
Proof.
  intros Hx Hid Hlen.
  set (mask := map (λ p, bool_decide (p < 0)%R)
                 (zip_with Rmult (map (λ a, a - x_min)%R xs)
                                 (map (Rminus x_max) xs))).
  assert (Hmask : ∀ i x, xs !! i = Some x →
            mask !! i = Some (bool_decide ((x - x_min) * (x_max - x) < 0)%R)).
  { intros i x Hi. unfold mask.
    rewrite list_lookup_fmap, lookup_zip_with, !list_lookup_fmap, Hi. done. }
  assert (Hmlen : length mask = length ids).
  { unfold mask. rewrite length_map, length_zip_with, !length_map. lia. }
  destruct (scatter_np_where ids mask 0%Z Hmlen) as (ids' & Hsc & Hl' & Hlk).
  assert (Hrun : losses_cut coord x_min x_max b
                 = if decide (length (np_where mask) ≠ 0)
                   then (<["id" := VIntArr ids']> b, Ok tt) else (b, Ok tt)).
  { unfold losses_cut. se_run.
    rewrite decide_True by (by rewrite !length_map). se_run.
    fold mask. destruct (decide (length (np_where mask) ≠ 0)); [|done].
    se_run. rewrite Hsc. done. }
  destruct (decide (length (np_where mask) ≠ 0)) as [Hne|He].
  - exists ids'. split; [done|]. split; [done|].
    intros i x k Hi Hk. rewrite Hlk, (Hmask i x Hi). split; intros Hp.
    + rewrite bool_decide_eq_true_2 by done. by rewrite decide_True.
    + rewrite bool_decide_eq_false_2 by done. by rewrite decide_False.
  - exists ids. split; [by rewrite insert_id|]. split; [done|].
    assert (Hnil : np_where mask = []).
    { destruct (np_where mask); [done|]. simpl in He. lia. }
    intros i x k Hi Hk. split; intros Hp; [|done].
    exfalso. assert (Hin : i ∈ np_where mask).
    { apply elem_of_np_where. rewrite (Hmask i x Hi).
      by rewrite bool_decide_eq_true_2. }
    rewrite Hnil in Hin. by apply elem_of_nil in Hin.
Qed.

Lemma outside_cut_iff (x_min x_max x : R) :
  ((x - x_min) * (x_max - x) < 0
   ↔ x < Rmin x_min x_max ∨ Rmax x_min x_max < x)%R.
Proof.
  unfold Rmin, Rmax. destruct (Rle_dec x_min x_max); split.
  - intros H. destruct (Rlt_dec x x_min); [by left|].
    destruct (Rlt_dec x_max x); [by right|]. exfalso. nra.
  - intros [H|H]; nra.
  - intros H. destruct (Rlt_dec x x_max); [by left|].
    destruct (Rlt_dec x_min x); [by right|]. exfalso. nra.
  - intros [H|H]; nra.
Qed.

(** C1.  On a beam, [losses_longitudinal_cut(dt_min, dt_max)] ends without an
    exception and changes the attribute [id] only: entry [i] becomes 0 when
    [(dt[i] - dt_min) * (dt_max - dt[i]) < 0] and keeps its value otherwise;
    [losses_energy_cut] does the same with [dE].  The product is negative
    exactly when the coordinate lies strictly outside the closed interval
    spanned by the two bounds, which is [[x_min, x_max]] for ordered bounds,
    so a particle on a bound is never marked. *)
Theorem losses_cut_marks_outside (b : obj) dt dE ids
    (dt_min dt_max dE_min dE_max : R) :
  is_Beam b dt dE ids →
  (∃ ids', losses_longitudinal_cut dt_min dt_max b
           = (<["id" := VIntArr ids']> b, Ok tt)
           ∧ cut_result dt_min dt_max dt ids ids')
  ∧ (∃ ids', losses_energy_cut dE_min dE_max b
             = (<["id" := VIntArr ids']> b, Ok tt)
             ∧ cut_result dE_min dE_max dE ids ids')
  ∧ (∀ x_min x_max x : R,
       (((x - x_min) * (x_max - x) < 0)%R
        ↔ (x < Rmin x_min x_max ∨ Rmax x_min x_max < x)%R)
       ∧ ((x_min <= x_max)%R →
          (((x - x_min) * (x_max - x) < 0)%R ↔ (x < x_min ∨ x_max < x)%R))
       ∧ (x = x_min ∨ x = x_max → ¬ ((x - x_min) * (x_max - x) < 0)%R)).
Proof.
  intros (Hdt & HdE & Hid & Hl1 & Hl2). split; [|split].
  - by apply losses_cut_run.
  - by apply losses_cut_run.
  - intros x_min x_max x. split; [apply outside_cut_iff|]. split.
    + intros Hle. rewrite outside_cut_iff.
      rewrite Rmin_left, Rmax_right by done. done.
    + intros [->| ->] H; lra.
Qed.

(** ** Statistics *)

Lemma gather_where_from {A} (mask : list bool) (a pre : list A) :
  length mask = length a →
  gather (pre ++ a) (where_from (length pre) mask) = Ok (select mask a).
Proof.
  revert a pre. induction mask as [|m mask IH]; intros a pre Hlen.
  - by destruct a.
  - destruct a as [|x a]; [done|]. simpl in Hlen.
    assert (Hrest : gather (pre ++ x :: a) (where_from (S (length pre)) mask)
                    = Ok (select mask a)).
    { replace (S (length pre)) with (length (pre ++ [x]))
        by (rewrite length_app; simpl; lia).
      replace (pre ++ x :: a) with ((pre ++ [x]) ++ a)
        by (by rewrite <- app_assoc).
      apply IH. lia. }
    destruct m; simpl; [|done].
    rewrite list_lookup_middle by done. by rewrite Hrest.
Qed.

Lemma gather_np_where {A} (mask : list bool) (a : list A) :
  length mask = length a → gather a (np_where mask) = Ok (select mask a).
Proof. intros H. by apply (gather_where_from mask a []). Qed.

Lemma Rsum_select_alive (f : R → R) (ids : list Z) (xs : list R) :
  Rsum (map f (select (alive_mask ids) xs)) = sum_alive f ids xs.
Proof.
  revert xs. induction ids as [|k ids IH]; intros xs; [done|].
  destruct xs as [|x xs]; [done|].
  unfold alive_mask in *. cbn [map select sum_alive].
  destruct (decide (k = 0%Z)) as [->|Hk].
  - rewrite bool_decide_eq_false_2 by (intros H; by apply H).
    rewrite IH. lra.
  - rewrite bool_decide_eq_true_2 by (intros H; by apply eq_IZR_R0 in H).
    cbn [map Rsum foldr]. fold (Rsum (map f (select (map (λ x, bool_decide (x ≠ 0%R)) (map IZR ids)) xs))).
    by rewrite IH.
Qed.

Lemma length_select_alive (ids : list Z) (xs : list R) :
  length xs = length ids →
  length (select (alive_mask ids) xs) = count_alive ids.
Proof.
  revert xs. induction ids as [|k ids IH]; intros xs Hlen; [done|].
  destruct xs as [|x xs]; [done|]. simpl in Hlen.
  unfold alive_mask in *. cbn [map select count_alive].
  destruct (decide (k = 0%Z)) as [->|Hk].
  - rewrite bool_decide_eq_false_2 by (intros H; by apply H).
    rewrite IH by lia. done.
  - rewrite bool_decide_eq_true_2 by (intros H; by apply eq_IZR_R0 in H).
    simpl. rewrite IH by lia. done.
Qed.

Lemma length_where_from k k' mask :
  length (where_from k mask) = length (where_from k' mask).
Proof.
  revert k k'. induction mask as [|m mask IH]; intros k k'; [done|].
  simpl. destruct m; simpl; by rewrite (IH (S k) (S k')).
Qed.

Lemma length_np_where_lost (ids : list Z) :
  length (np_where (lost_mask ids)) = count_lost ids.
Proof.
  unfold np_where, lost_mask. induction ids as [|k ids IH]; [done|].
  cbn [map where_from count_lost].
  destruct (decide (k = 0%Z)) as [->|Hk].
  - rewrite bool_decide_eq_true_2 by done. simpl.
    by rewrite (length_where_from 1 0), IH.
  - rewrite bool_decide_eq_false_2 by (intros H; by apply eq_IZR_R0 in H).
    by rewrite (length_where_from 1 0), IH.
Qed.

Lemma sum_alive_ext (f g : R → R) ids xs :
  (∀ x, f x = g x) → sum_alive f ids xs = sum_alive g ids xs.
Proof.
  intros Hfg. revert xs. induction ids as [|k ids IH]; intros xs; [done|].
  destruct xs as [|x xs]; [done|]. simpl. by rewrite IH, Hfg.
Qed.

Lemma np_mean_alive (ids : list Z) (xs : list R) :
  length xs = length ids →
  np_mean (select (alive_mask ids) xs) = mean_alive ids xs.
Proof.
  intros Hlen. unfold np_mean, mean_alive.
  rewrite length_select_alive by done.
  rewrite <- (map_id (select (alive_mask ids) xs)) at 1.
  by rewrite Rsum_select_alive.
Qed.

Lemma np_std_alive (ids : list Z) (xs : list R) :
  length xs = length ids →
  np_std (select (alive_mask ids) xs) = sigma_alive ids xs.
Proof.
  intros Hlen. unfold np_std, sigma_alive, np_mean at 1.
  rewrite length_map, length_select_alive by done.
  rewrite Rsum_select_alive, np_mean_alive by done.
  f_equal. f_equal. apply sum_alive_ext. intros x. apply pow2_abs.
Qed.

Lemma count_alive_lost (ids : list Z) :
  count_alive ids + count_lost ids = length ids.
Proof.
  induction ids as [|k ids IH]; [done|]. simpl.
  destruct (decide (k = 0%Z)); simpl; lia.
Qed.

Lemma count_alive_pos (ids : list Z) i k :
  ids !! i = Some k → k ≠ 0%Z → 0 < count_alive ids.
Proof.
  revert i. induction ids as [|k' ids IH]; intros i Hi Hk; [done|].
  destruct i as [|i]; simpl in *.
  - injection Hi as ->. rewrite decide_False by done. lia.
  - specialize (IH i Hi Hk). lia.
Qed.

(** C2.  On a beam with at least one alive particle, [statistics()] ends
    without an exception and stores: in [mean_dt], [mean_dE] the sums of [dt],
    [dE] over the indices with [id ≠ 0] divided by the number of such
    indices; in [sigma_dt], [sigma_dE] the square roots of the mean squared
    deviations over the same indices, divided by that same number; in
    [epsn_rms_l] the product [π · sigma_dE · sigma_dt]; in
    [n_macroparticles_lost] the number of indices with [id = 0].  Nothing
    else changes, and the alive count it divides by is positive. *)
Theorem statistics_over_alive (b : obj) dt dE ids :
  is_Beam b dt dE ids →
  (∃ i k, ids !! i = Some k ∧ k ≠ 0%Z) →
  statistics b
  = (<["n_macroparticles_lost" := VInt (Z.of_nat (count_lost ids))]>
      (<["epsn_rms_l" :=
           VFloat (PI * sigma_alive ids dE * sigma_alive ids dt)]>
        (<["sigma_dE" := VFloat (sigma_alive ids dE)]>
          (<["sigma_dt" := VFloat (sigma_alive ids dt)]>
            (<["mean_dE" := VFloat (mean_alive ids dE)]>
              (<["mean_dt" := VFloat (mean_alive ids dt)]> b))))),
     Ok tt)
  ∧ (0 < INR (count_alive ids))%R
  ∧ count_alive ids + count_lost ids = length ids.
Proof.
  intros (Hdt & HdE & Hid & Hl1 & Hl2) (i & k & Hi & Hk).
  split; [|split].
  - unfold statistics. se_run.
    fold (alive_mask ids). fold (lost_mask ids).
    repeat (rewrite gather_np_where
              by (unfold alive_mask; rewrite !length_map; lia); se_run).
    rewrite !np_mean_alive, !np_std_alive by done.
    fold (lost_mask ids). by rewrite length_np_where_lost.
  - apply lt_0_INR. by eapply count_alive_pos.
  - apply count_alive_lost.
Qed.

(** The test of the specification: [dt = [-1, 0, 1]], all alive. *)
Example sigma_alive_three :
  mean_alive [1; 2; 3]%Z [-1; 0; 1]%R = 0%R
  ∧ sigma_alive [1; 2; 3]%Z [-1; 0; 1]%R = sqrt (2 / 3).
Proof.
  assert (Hmean : mean_alive [1; 2; 3]%Z [-1; 0; 1]%R = 0%R).
  { unfold mean_alive. simpl. lra. }
  split; [done|]. unfold sigma_alive. rewrite Hmean. simpl. f_equal. lra.
Qed.

(** ** The constructor *)

Lemma Beam_new_inv gp n intensity (b : obj) :
  Beam_new gp n intensity = Ok b →
  (0 < n)%Z
  ∧ ∃ bt g en p,
      b = <["id" := VIntArr (np_arange 1 (n + 1))]>
          (<["n_macroparticles_lost" := VInt 0]>
          (<["ratio" := VFloat (pynumber_R intensity / IZR n)]>
          (<["n_macroparticles" := VInt n]>
          (<["intensity" := pynumber_value intensity]>
          (<["sigma_dE" := VInt 0]>
          (<["sigma_dt" := VInt 0]>
          (<["mean_dE" := VInt 0]>
          (<["mean_dt" := VInt 0]>
          (<["dE" := VArr (replicate (Z.to_nat n) 0%R)]>
          (<["dt" := VArr (replicate (Z.to_nat n) 0%R)]>
          (<["momentum" := VFloat p]>
          (<["energy" := VFloat en]>
          (<["gamma" := VFloat g]>
          (<["beta" := VFloat bt]>
          (<["charge" := VInt (charge gp)]>
          (<["mass" := VFloat (mass gp)]> ∅)))))))))))))))).
Proof.
  unfold Beam_new, Beam_init, np_zeros, py_truediv. se_run.
  destruct (index_0_0 (beta gp)) as [bt|]; se_run; [|done].
  destruct (index_0_0 (gamma gp)) as [g|]; se_run; [|done].
  destruct (index_0_0 (energy gp)) as [en|]; se_run; [|done].
  destruct (index_0_0 (momentum gp)) as [p|]; se_run; [|done].
  destruct (n <? 0)%Z eqn:Hneg; se_run; [done|].
  destruct (n =? 0)%Z eqn:Hzero; se_run; [done|].
  intros [= <-]. split; [lia|]. by exists bt, g, en, p.
Qed.

Lemma Beam_new_zero gp intensity bt g en p :
  index_0_0 (beta gp) = Ok bt → index_0_0 (gamma gp) = Ok g →
  index_0_0 (energy gp) = Ok en → index_0_0 (momentum gp) = Ok p →
  Beam_init gp 0 intensity ∅
  = (<["n_macroparticles" := VInt 0]>
     (<["intensity" := pynumber_value intensity]>
     (<["sigma_dE" := VInt 0]>
     (<["sigma_dt" := VInt 0]>
     (<["mean_dE" := VInt 0]>
     (<["mean_dt" := VInt 0]>
     (<["dE" := VArr []]>
     (<["dt" := VArr []]>
     (<["momentum" := VFloat p]>
     (<["energy" := VFloat en]>
     (<["gamma" := VFloat g]>
     (<["beta" := VFloat bt]>
     (<["charge" := VInt (charge gp)]>
     (<["mass" := VFloat (mass gp)]> ∅))))))))))))),
     Raise ZeroDivisionError).
Proof.
  intros Hb Hg He Hp. unfold Beam_init, np_zeros, py_truediv. se_run.
  rewrite Hb. se_run. rewrite Hg. se_run. rewrite He. se_run.
  rewrite Hp. se_run. done.
Qed.

(** C10, as the code has it.  With a macro-particle count of zero and the
    intensity a Python number, the constructor returns no beam: the division
    [intensity / n_macroparticles] is not guarded and raises
    [ZeroDivisionError].  At that point [dt] and [dE] have been set to empty
    arrays, and [ratio] and [id] have not been assigned. *)
Theorem Beam_zero_count_raises gp intensity :
  (¬ ∃ b, Beam_new gp 0 intensity = Ok b)
  ∧ ((∃ bt g en p,
        index_0_0 (beta gp) = Ok bt ∧ index_0_0 (gamma gp) = Ok g
        ∧ index_0_0 (energy gp) = Ok en ∧ index_0_0 (momentum gp) = Ok p) →
     Beam_new gp 0 intensity = Raise ZeroDivisionError
     ∧ ∃ self : obj,
         Beam_init gp 0 intensity ∅ = (self, Raise ZeroDivisionError)
         ∧ self !! "dt" = Some (VArr []) ∧ self !! "dE" = Some (VArr [])
         ∧ self !! "ratio" = None ∧ self !! "id" = None).
Proof.
  split.
  - intros [b Hb]. apply Beam_new_inv in Hb as [Hpos _]. lia.
  - intros (bt & g & en & p & Hb & Hg & He & Hp).
    pose proof (Beam_new_zero gp intensity bt g en p Hb Hg He Hp) as Hrun.
    split.
    + unfold Beam_new. by rewrite Hrun.
    + eexists. split; [exact Hrun|].
      repeat split; by repeat (rewrite lookup_insert_ne by done).
Qed.

Lemma Beam_zero_count_raises_witness :
  Beam_new example_GeneralParameters 0 (PyFloat 100000000000)
  = Raise ZeroDivisionError.
Proof.
  apply (Beam_zero_count_raises example_GeneralParameters
           (PyFloat 100000000000)).
  by exists 1%R, 7%R, 6567904322%R, 6500000000%R.
Defined.

(** C10, as the specification words it: a zero count gives a beam.  It does
    not, already for the intensity of the class's own example. *)
Lemma Beam_zero_count_gives_no_beam :
  ¬ ∃ b : obj,
      Beam_new example_GeneralParameters 0 (PyFloat 100000000000) = Ok b
      ∧ b !! "dt" = Some (VArr []) ∧ b !! "dE" = Some (VArr [])
      ∧ b !! "id" = Some (VIntArr []).
Proof.
  intros (b & Hb & _). apply Beam_new_inv in Hb as [Hpos _]. lia.
Qed.

(** ** The elements of the tracker *)

Lemma Kick_track_run (k : Kick) (w : World) dE theta :
  w_beam w !! "dE" = Some (VArr dE) →
  w_beam w !! "theta" = Some (VArr theta) →
  length theta = length dE →
  Kick_track k w
  = (mkWorld (w_ring w)
       (<["dE" := VArr (zip_with
                   (λ d t, d + elementary_charge * k_voltage k
                               * sin (k_harmonic k * t + k_phi_offset k))%R
                   dE theta)]> (w_beam w))
       (w_p_increment w) (w_stdout w),
     Ok tt).
Proof.
  intros HdE Hth Hlen. unfold Kick_track. se_run.
  rewrite decide_True by (by rewrite length_map). se_run.
  by rewrite zip_with_fmap_r.
Qed.

(** C8.  A kick built from the configuration at index [i] holds the three
    entries found there at that moment.  On a beam whose [dE] and [theta]
    are arrays of one length, [Kick.track] ends without an exception and
    replaces [dE[j]] by
    [dE[j] + e * voltage * sin(harmonic * theta[j] + phi_offset)] for every
    particle [j]; the ring of the world plays no part, and no attribute of
    the beam other than [dE] changes. *)
Theorem Kick_track_adds_rf_kick (ring : Ring) (i : nat) h V phi
    (w : World) dE theta :
  harmonic ring !! i = Some h → voltage ring !! i = Some V →
  phi_offset ring !! i = Some phi →
  w_beam w !! "dE" = Some (VArr dE) →
  w_beam w !! "theta" = Some (VArr theta) →
  length theta = length dE →
  ∃ k w',
    Kick_init ring i = Ok k
    ∧ Kick_track k w = (w', Ok tt)
    ∧ w_beam w'
      = <["dE" := VArr (zip_with
                   (λ d t, d + elementary_charge * V * sin (h * t + phi))%R
                   dE theta)]> (w_beam w)
    ∧ (∀ name, name ≠ "dE" → w_beam w' !! name = w_beam w !! name)
    ∧ w_ring w' = w_ring w ∧ w_p_increment w' = w_p_increment w
    ∧ w_stdout w' = w_stdout w.
Proof.
  intros Hh HV Hphi HdE Hth Hlen.
  exists (mkKick h V phi). eexists. split.
  { unfold Kick_init. by rewrite Hh, HV, Hphi. }
  split; [by apply (Kick_track_run _ _ dE theta)|]. simpl.
  repeat split. intros name Hne. by rewrite lookup_insert_ne.
Qed.

Lemma Kick_acceleration_track_run (w : World) dE :
  w_beam w !! "dE" = Some (VArr dE) →
  Kick_acceleration_track w
  = (mkWorld (Ring_advance (w_ring w))
       (<["dE" := VArr (map
                   (λ d, d + - ((beta_i (w_ring w) (w_beam w)
                                 + beta_f (w_ring w) (w_beam w)) / 2)
                               * c * w_p_increment w)%R dE)]> (w_beam w))
       (w_p_increment w) (w_stdout w),
     Ok tt).
Proof.
  intros HdE. unfold Kick_acceleration_track. se_run.
  do 3 f_equal. f_equal. apply map_ext. intros d. lra.
Qed.

(** C7.  On a beam whose [dE] is an array, [Kick_acceleration.track] ends
    without an exception, adds
    [-((beta_i(beam) + beta_f(beam)) / 2) * c * p_increment] to every entry
    of [dE], and then advances the counter of the ring by one.  The other
    attributes of the beam, the other attributes of the ring, [p_increment]
    and the output are as before. *)
Theorem Kick_acceleration_track_ramp (w : World) dE :
  w_beam w !! "dE" = Some (VArr dE) →
  ∃ w',
    Kick_acceleration_track w = (w', Ok tt)
    ∧ w_beam w'
      = <["dE" := VArr (map
                   (λ d, d + - ((beta_i (w_ring w) (w_beam w)
                                 + beta_f (w_ring w) (w_beam w)) / 2)
                               * c * w_p_increment w)%R dE)]> (w_beam w)
    ∧ counter (w_ring w') = (counter (w_ring w) + 1)%Z
    ∧ (∀ name, name ≠ "dE" → w_beam w' !! name = w_beam w !! name)
    ∧ harmonic (w_ring w') = harmonic (w_ring w)
    ∧ voltage (w_ring w') = voltage (w_ring w)
    ∧ phi_offset (w_ring w') = phi_offset (w_ring w)
    ∧ circumference (w_ring w') = circumference (w_ring w)
    ∧ ring_length (w_ring w') = ring_length (w_ring w)
    ∧ alpha_array (w_ring w') = alpha_array (w_ring w)
    ∧ w_p_increment w' = w_p_increment w
    ∧ w_stdout w' = w_stdout w.
Proof.
  intros HdE. eexists. split; [by apply Kick_acceleration_track_run|]. simpl.
  repeat split. intros name Hne. by rewrite lookup_insert_ne.
Qed.

(** The two values of the dictionary in [Drift.track], per particle. *)
Lemma Drift_full_entry (ring : Ring) (beam : obj) theta delta :
  zip_with Rplus
    (map (Rmult (beta_f ring beam / beta_i ring beam)) theta)
    (map (λ x, 2 * PI * (1 / (1 - x) - 1) * ring_length ring
               / circumference ring)%R
         (zip_with Rmult (map (eta ring beam) delta) delta))
  = zip_with
      (λ t d, beta_f ring beam / beta_i ring beam * t
              + 2 * PI * (1 / (1 - eta ring beam d * d) - 1)
                * (ring_length ring / circumference ring))%R
      theta delta.
Proof.
  apply list_eq. intros j.
  rewrite !lookup_zip_with, !list_lookup_fmap, lookup_zip_with,
    list_lookup_fmap.
  destruct (theta !! j) as [t|], (delta !! j) as [d|]; simpl; try done.
  f_equal. unfold Rdiv. ring.
Qed.

Lemma Drift_simple_entry (ring : Ring) (beam : obj) theta delta :
  zip_with Rplus theta
    (map (λ d, 2 * PI * _eta0 ring beam (alpha_array ring) * d
               * ring_length ring / circumference ring)%R delta)
  = zip_with
      (λ t d, t + 2 * PI * _eta0 ring beam (alpha_array ring) * d
                  * (ring_length ring / circumference ring))%R
      theta delta.
Proof.
  apply list_eq. intros j.
  rewrite !lookup_zip_with, !list_lookup_fmap.
  destruct (theta !! j) as [t|], (delta !! j) as [d|]; simpl; try done.
  f_equal. unfold Rdiv. ring.
Qed.

Lemma Drift_track_run (d : Drift) (w : World) theta delta :
  w_beam w !! "theta" = Some (VArr theta) →
  w_beam w !! "delta" = Some (VArr delta) →
  length theta = length delta →
  Drift_track d w
  = if decide (d_solver d = "full") then
      (mkWorld (w_ring w)
         (<["theta" := VArr (zip_with
             (λ t x, beta_f (w_ring w) (w_beam w)
                     / beta_i (w_ring w) (w_beam w) * t
                     + 2 * PI * (1 / (1 - eta (w_ring w) (w_beam w) x * x) - 1)
                       * (ring_length (w_ring w) / circumference (w_ring w)))%R
             theta delta)]> (w_beam w))
         (w_p_increment w) (w_stdout w), Ok tt)
    else if decide (d_solver d = "simple") then
      (mkWorld (w_ring w)
         (<["theta" := VArr (zip_with
             (λ t x, t + 2 * PI
                         * _eta0 (w_ring w) (w_beam w) (alpha_array (w_ring w))
                         * x
                         * (ring_length (w_ring w) / circumference (w_ring w)))%R
             theta delta)]> (w_beam w))
         (w_p_increment w) (w_stdout w), Ok tt)
    else
      (mkWorld (w_ring w) (w_beam w) (w_p_increment w)
         (w_stdout w
          ++ ["ERROR: Choice of longitudinal solver not recognized! Aborting..."]),
       Raise SystemExit).
Proof.
  intros Hth Hde Hlen. unfold Drift_track. se_run.
  rewrite decide_True by (by rewrite length_map). se_run.
  rewrite decide_True
    by (rewrite !length_map, length_zip_with, length_map; lia).
  se_run. rewrite decide_True by (by rewrite length_map). se_run.
  destruct (decide (d_solver d = "full")); se_run.
  { by rewrite Drift_full_entry. }
  destruct (decide (d_solver d = "simple")); se_run; [|done].
  by rewrite Drift_simple_entry.
Qed.

(** C5.  On a beam whose [theta] and [delta] are arrays of one length,
    [Drift.track] with solver ["full"] replaces [theta[j]] by
    [(beta_f/beta_i) * theta[j]
     + 2π * (1 / (1 - eta(beam, delta[j]) * delta[j]) - 1)
       * (ring_length / circumference)],
    and with solver ["simple"] by
    [theta[j] + 2π * eta0(alpha_array) * delta[j]
                * (ring_length / circumference)];
    whatever the solver, no attribute of the beam other than [theta]
    changes, and the ring and [p_increment] stay as they are. *)
Theorem Drift_track_formulas (d : Drift) (w : World) theta delta :
  w_beam w !! "theta" = Some (VArr theta) →
  w_beam w !! "delta" = Some (VArr delta) →
  length theta = length delta →
  (d_solver d = "full" →
   Drift_track d w
   = (mkWorld (w_ring w)
        (<["theta" := VArr (zip_with
            (λ t x, beta_f (w_ring w) (w_beam w)
                    / beta_i (w_ring w) (w_beam w) * t
                    + 2 * PI * (1 / (1 - eta (w_ring w) (w_beam w) x * x) - 1)
                      * (ring_length (w_ring w) / circumference (w_ring w)))%R
            theta delta)]> (w_beam w))
        (w_p_increment w) (w_stdout w), Ok tt))
  ∧ (d_solver d = "simple" →
     Drift_track d w
     = (mkWorld (w_ring w)
          (<["theta" := VArr (zip_with
              (λ t x, t + 2 * PI
                          * _eta0 (w_ring w) (w_beam w) (alpha_array (w_ring w))
                          * x
                          * (ring_length (w_ring w)
                             / circumference (w_ring w)))%R
              theta delta)]> (w_beam w))
          (w_p_increment w) (w_stdout w), Ok tt))
  ∧ ∃ w' r,
      Drift_track d w = (w', r)
      ∧ (∀ name, name ≠ "theta" → w_beam w' !! name = w_beam w !! name)
      ∧ w_ring w' = w_ring w ∧ w_p_increment w' = w_p_increment w.
Proof.
  intros Hth Hde Hlen.
  pose proof (Drift_track_run d w theta delta Hth Hde Hlen) as Hrun.
  split; [|split].
  - intros Hs. by rewrite decide_True in Hrun.
  - intros Hs. rewrite decide_False, decide_True in Hrun; [done..|].
    by rewrite Hs.
  - destruct (decide (d_solver d = "full")).
    { eexists _, _. split; [exact Hrun|]. simpl. repeat split.
      intros name Hne. by rewrite lookup_insert_ne. }
    destruct (decide (d_solver d = "simple")).
    { eexists _, _. split; [exact Hrun|]. simpl. repeat split.
      intros name Hne. by rewrite lookup_insert_ne. }
    eexists _, _. split; [exact Hrun|]. done.
Qed.

(** C6.  A solver name other than ["full"] and ["simple"] is accepted by the
    constructor of [Drift], which stores it.  The entries of both solvers
    are computed before the name is looked up, so the lookup is reached only
    on a beam these entries can be computed for: on a beam whose [theta] and
    [delta] are arrays of one length, and with a [beta_i] other than zero,
    each call of [track] prints the error line and leaves through
    [sys.exit()]: the call ends with [SystemExit], and the beam, the ring
    and [p_increment] are as before, so no solver has been applied. *)
Theorem Drift_unrecognized_solver (solver : string) (w : World) theta delta :
  solver ≠ "full" → solver ≠ "simple" →
  beta_i (w_ring w) (w_beam w) ≠ 0%R →
  w_beam w !! "theta" = Some (VArr theta) →
  w_beam w !! "delta" = Some (VArr delta) →
  length theta = length delta →
  d_solver (Drift_init solver) = solver
  ∧ Drift_track (Drift_init solver) w
    = (mkWorld (w_ring w) (w_beam w) (w_p_increment w)
         (w_stdout w
          ++ ["ERROR: Choice of longitudinal solver not recognized! Aborting..."]),
       Raise SystemExit).
Proof.
  intros Hf Hs _ Hth Hde Hlen. split; [done|].
  rewrite (Drift_track_run _ w theta delta Hth Hde Hlen). simpl.
  by rewrite !decide_False.
Qed.

(** ** The tracker *)

Lemma for_each_app {S A} (f : A → SE S unit) (l1 l2 : list A) (s : S) :
  for_each f (l1 ++ l2) s = (for_each f l1 ;; for_each f l2)%se s.
Proof.
  revert s. induction l1 as [|x l1 IH]; intros s; [done|].
  simpl. unfold se_bind. destruct (f x s) as [s' [[]|err]]; [|done].
  rewrite IH. done.
Qed.

Lemma for_each_EKick (ks : list Kick) (w : World) :
  for_each Element_track (map EKick ks) w = for_each Kick_track ks w.
Proof.
  revert w. induction ks as [|k ks IH]; intros w; [done|].
  simpl. unfold se_bind. destruct (Kick_track k w) as [w' [[]|err]]; [|done].
  apply IH.
Qed.

Lemma for_each_Kick_track (ks : list Kick) (w : World) dE theta :
  w_beam w !! "dE" = Some (VArr dE) →
  w_beam w !! "theta" = Some (VArr theta) →
  length theta = length dE →
  ∃ dE', for_each Kick_track ks w
         = (mkWorld (w_ring w) (<["dE" := VArr dE']> (w_beam w))
              (w_p_increment w) (w_stdout w), Ok tt)
         ∧ length dE' = length dE.
Proof.
  revert w dE. induction ks as [|k ks IH]; intros w dE HdE Hth Hlen.
  - exists dE. split; [|done]. simpl. unfold se_ret.
    rewrite insert_id by done. by destruct w.
  - simpl. unfold se_bind.
    rewrite (Kick_track_run k w dE theta HdE Hth Hlen).
    edestruct (IH (mkWorld (w_ring w)
                 (<["dE" := VArr (zip_with
                     (λ d t, d + elementary_charge * k_voltage k
                                 * sin (k_harmonic k * t + k_phi_offset k))%R
                     dE theta)]> (w_beam w))
                 (w_p_increment w) (w_stdout w))) as (dE' & Hrun & Hl).
    + simpl. apply lookup_insert_eq.
    + simpl. by rewrite lookup_insert_ne.
    + rewrite length_zip_with. lia.
    + exists dE'. rewrite Hrun. simpl. rewrite insert_insert_eq.
      split; [done|]. rewrite Hl, length_zip_with. lia.
Qed.

Lemma build_kicks_inv (ring : Ring) (indices : list nat) (ks : list Kick) :
  build_kicks ring indices = Ok ks →
  length ks = length indices
  ∧ ∀ j k, ks !! j = Some k →
      ∃ i, indices !! j = Some i ∧ Kick_init ring i = Ok k.
Proof.
  revert ks. induction indices as [|i rest IH]; intros ks Hb; simpl in Hb.
  - injection Hb as <-. split; [done|]. intros j k Hj. done.
  - unfold res_bind in Hb.
    destruct (Kick_init ring i) as [k0|] eqn:Hk0; [|done].
    destruct (build_kicks ring rest) as [ks0|] eqn:Hks0; [|done].
    injection Hb as <-. destruct (IH ks0 eq_refl) as [Hl Hall].
    split; [simpl; lia|]. intros [|j] k Hj; simpl in Hj.
    + injection Hj as <-. by exists i.
    + destruct (Hall j k Hj) as (i' & Hi' & Hk'). by exists i'.
Qed.

Lemma Longitudinal_tracker_init_inv (solver : string) (w0 w1 : World) tr :
  Longitudinal_tracker_init solver w0 = (w1, Ok tr) →
  lt_solver tr = solver
  ∧ elements tr
    = map EKick (kicks tr) ++ [EKick_acceleration; EDrift (Drift_init solver)]
  ∧ length (kicks tr) = length (harmonic (w_ring w0))
  ∧ (∀ i k, kicks tr !! i = Some k → Kick_init (w_ring w0) i = Ok k)
  ∧ w_p_increment w1 = 0%R.
Proof.
  unfold Longitudinal_tracker_init. se_run.
  destruct (decide _); se_run.
  - destruct (build_kicks (w_ring w0) (seq 0 (length (harmonic (w_ring w0)))))
      as [ks|] eqn:Hks; [|done].
    intros [= <- <-]. apply build_kicks_inv in Hks as [Hl Hall].
    rewrite length_seq in Hl. simpl. repeat split; try done.
    intros i k Hi. destruct (Hall i k Hi) as (i' & Hi' & Hk).
    apply lookup_seq in Hi' as [-> _]. done.
  - destruct (build_kicks (w_ring w0) (seq 0 (length (harmonic (w_ring w0)))))
      as [ks|] eqn:Hks; [|done].
    intros [= <- <-]. apply build_kicks_inv in Hks as [Hl Hall].
    rewrite length_seq in Hl. simpl. repeat split; try done.
    intros i k Hi. destruct (Hall i k Hi) as (i' & Hi' & Hk).
    apply lookup_seq in Hi' as [-> _]. done.
Qed.

(** C3.  A tracker built from the configuration holds one kick per harmonic
    index, in index order, and its element list is these kicks, then the
    acceleration kick, then the drift.  On a beam whose [dE], [theta] and
    [delta] are arrays of one length, and for a ring whose [beta_i] is never
    zero, one call of [track] is: store
    [p0_f - p0_i] of the ring in [p_increment], run the kicks in order, run
    the acceleration kick, run the drift.  When the call ends, [p_increment]
    holds that difference and the counter of the ring is one more than
    before, whatever the number of kicks; the call ends without an exception
    when the solver is ["full"] or ["simple"]. *)
Theorem Longitudinal_tracker_track_turn (solver : string) (w0 w1 : World)
    (tr : Longitudinal_tracker) (w : World) dE theta delta :
  Longitudinal_tracker_init solver w0 = (w1, Ok tr) →
  (∀ ring beam, beta_i ring beam ≠ 0%R) →
  w_beam w !! "dE" = Some (VArr dE) →
  w_beam w !! "theta" = Some (VArr theta) →
  w_beam w !! "delta" = Some (VArr delta) →
  length theta = length dE → length theta = length delta →
  elements tr
  = map EKick (kicks tr) ++ [EKick_acceleration; EDrift (Drift_init solver)]
  ∧ length (kicks tr) = length (harmonic (w_ring w0))
  ∧ (∀ i k, kicks tr !! i = Some k → Kick_init (w_ring w0) i = Ok k)
  ∧ Longitudinal_tracker_track tr w
    = (set_p_increment (p0_f (w_ring w) - p0_i (w_ring w))%R ;;
       for_each Kick_track (kicks tr) ;;
       Kick_acceleration_track ;;
       Drift_track (Drift_init solver))%se w
  ∧ ∃ w' r,
      Longitudinal_tracker_track tr w = (w', r)
      ∧ w_p_increment w' = (p0_f (w_ring w) - p0_i (w_ring w))%R
      ∧ counter (w_ring w') = (counter (w_ring w) + 1)%Z
      ∧ (solver = "full" ∨ solver = "simple" → r = Ok tt).
Proof.
  intros Hinit _ HdE Hth Hde Hl1 Hl2.
  apply Longitudinal_tracker_init_inv in Hinit
    as (Hsolver & Helems & Hlen & Hkicks & _).
  split; [done|]. split; [done|]. split; [done|].
  destruct (for_each_Kick_track (kicks tr)
              (mkWorld (w_ring w) (w_beam w)
                 (p0_f (w_ring w) - p0_i (w_ring w))%R (w_stdout w))
              dE theta HdE Hth Hl1)
    as (dE' & Hks & HldE').
  simpl in Hks.
  assert (Hseq : Longitudinal_tracker_track tr w
    = (set_p_increment (p0_f (w_ring w) - p0_i (w_ring w))%R ;;
       for_each Kick_track (kicks tr) ;;
       Kick_acceleration_track ;;
       Drift_track (Drift_init solver))%se w).
  { unfold Longitudinal_tracker_track. rewrite Helems.
    unfold se_bind, se_get, set_p_increment, se_modify.
    rewrite for_each_app. unfold se_bind.
    rewrite for_each_EKick, Hks. simpl. unfold se_bind.
    destruct (Kick_acceleration_track _) as [w3 [[]|err]]; [|done].
    destruct (Drift_track _ w3) as [w4 [[]|err]]; done. }
  split; [exact Hseq|].
  rewrite Hseq. unfold se_bind, set_p_increment, se_modify.
  rewrite Hks.
  erewrite Kick_acceleration_track_run by (simpl; apply lookup_insert_eq).
  simpl.
  erewrite Drift_track_run;
    [| simpl; rewrite !lookup_insert_ne by done; exact Hth
     | simpl; rewrite !lookup_insert_ne by done; exact Hde
     | done ].
  simpl. destruct (decide (solver = "full")); [by eexists _, _|].
  destruct (decide (solver = "simple")); [by eexists _, _|].
  eexists _, _. split; [done|]. simpl. repeat split. intros [?|?]; done.
Qed.

(** ** The beam of the constructor under the tracker *)

Lemma World_eta (w : World) :
  mkWorld (w_ring w) (w_beam w) (w_p_increment w) (w_stdout w) = w.
Proof. by destruct w. Qed.




(** ** The linear map *)

Lemma c_neq_0 : c ≠ 0%R.
Proof. unfold c. lra. Qed.

Lemma LinearMap_omega_s_neq_0 (self : LinearMap) (bt : R) :
  lm_Qs self ≠ 0%R → bt ≠ 0%R → lm_circumference self ≠ 0%R →
  (lm_Qs self * (2 * PI * bt * c / lm_circumference self))%R ≠ 0%R.
Proof.
  intros HQs Hbt Hcirc. unfold Rdiv.
  pose proof PI_neq0 as Hpi. pose proof c_neq_0 as Hc0.
  apply Rmult_integral_contrapositive_currified; [assumption|].
  apply Rmult_integral_contrapositive_currified;
    [|by apply Rinv_neq_0_compat].
  apply Rmult_integral_contrapositive_currified; [|assumption].
  apply Rmult_integral_contrapositive_currified; [|assumption].
  apply Rmult_integral_contrapositive_currified; [lra|assumption].
Qed.

(** The four quotients of [LinearMap.track], in the order of the source. *)
Lemma LinearMap_track_zero_gamma (self : LinearMap) (w : World) :
  w_beam w !! "gamma" = Some (VFloat 0) →
  LinearMap_track self w = (w, Raise ZeroDivisionError).
Proof.
  intros Hg. unfold LinearMap_track. se_run.
  rewrite decide_True by done. by rewrite World_eta.
Qed.

Lemma LinearMap_track_zero_circumference (self : LinearMap) (w : World) g bt :
  w_beam w !! "gamma" = Some (VFloat g) →
  w_beam w !! "beta" = Some (VFloat bt) →
  g ≠ 0%R → lm_circumference self = 0%R →
  LinearMap_track self w = (w, Raise ZeroDivisionError).
Proof.
  intros Hg Hb Hg0 Hcirc. unfold LinearMap_track. se_run.
  rewrite decide_False by done. se_run.
  rewrite decide_True by done. by rewrite World_eta.
Qed.

Lemma LinearMap_track_zero_omega_s (self : LinearMap) (w : World)
    g bt zs dps :
  w_beam w !! "gamma" = Some (VFloat g) →
  w_beam w !! "beta" = Some (VFloat bt) →
  w_beam w !! "z" = Some (VArr zs) →
  w_beam w !! "dp" = Some (VArr dps) →
  g ≠ 0%R → lm_circumference self ≠ 0%R →
  (lm_Qs self * (2 * PI * bt * c / lm_circumference self))%R = 0%R →
  LinearMap_track self w = (w, Raise ZeroDivisionError).
Proof.
  intros Hg Hb Hz Hdp Hg0 Hcirc Hom. unfold LinearMap_track. se_run.
  rewrite decide_False by done. se_run.
  rewrite decide_False by done. se_run.
  rewrite decide_True by done. by rewrite World_eta.
Qed.

Lemma LinearMap_track_zero_eta (self : LinearMap) (w : World) g bt zs dps :
  w_beam w !! "gamma" = Some (VFloat g) →
  w_beam w !! "beta" = Some (VFloat bt) →
  w_beam w !! "z" = Some (VArr zs) →
  w_beam w !! "dp" = Some (VArr dps) →
  length zs = length dps →
  g ≠ 0%R → lm_circumference self ≠ 0%R →
  (lm_Qs self * (2 * PI * bt * c / lm_circumference self))%R ≠ 0%R →
  (lm_alpha self - / (g ^ 2))%R = 0%R →
  LinearMap_track self w
  = (mkWorld (w_ring w)
       (<["z" := VArr (zip_with
           (λ z0 dp0,
              z0 * cos (2 * PI * lm_Qs self)
              - (lm_alpha self - / (g ^ 2)) * c
                / (lm_Qs self * (2 * PI * bt * c / lm_circumference self))
                * dp0 * sin (2 * PI * lm_Qs self))%R zs dps)]>
         (w_beam w))
       (w_p_increment w) (w_stdout w),
     Raise ZeroDivisionError).
Proof.
  intros Hg Hb Hz Hdp Hlen Hg0 Hcirc Hom Heta. unfold LinearMap_track. se_run.
  rewrite decide_False by done. se_run.
  rewrite decide_False by done. se_run.
  rewrite decide_False by done. se_run.
  rewrite decide_True by (by rewrite !length_map). se_run.
  rewrite decide_True by done. se_run.
  do 3 f_equal. f_equal. apply list_eq. intros j.
  rewrite !lookup_zip_with, !list_lookup_fmap.
  by destruct (zs !! j), (dps !! j).
Qed.

Lemma LinearMap_track_run (self : LinearMap) (w : World) g bt zs dps :
  w_beam w !! "gamma" = Some (VFloat g) →
  w_beam w !! "beta" = Some (VFloat bt) →
  w_beam w !! "z" = Some (VArr zs) →
  w_beam w !! "dp" = Some (VArr dps) →
  length zs = length dps →
  g ≠ 0%R → lm_circumference self ≠ 0%R →
  (lm_Qs self * (2 * PI * bt * c / lm_circumference self))%R ≠ 0%R →
  (lm_alpha self - / (g ^ 2))%R ≠ 0%R →
  LinearMap_track self w
  = (mkWorld (w_ring w)
       (<["dp" := VArr (zip_with
           (λ dp0 z0,
              dp0 * cos (2 * PI * lm_Qs self)
              + lm_Qs self * (2 * PI * bt * c / lm_circumference self)
                / (lm_alpha self - / (g ^ 2)) / c * z0
                * sin (2 * PI * lm_Qs self))%R dps zs)]>
        (<["z" := VArr (zip_with
           (λ z0 dp0,
              z0 * cos (2 * PI * lm_Qs self)
              - (lm_alpha self - / (g ^ 2)) * c
                / (lm_Qs self * (2 * PI * bt * c / lm_circumference self))
                * dp0 * sin (2 * PI * lm_Qs self))%R zs dps)]>
         (w_beam w)))
       (w_p_increment w) (w_stdout w),
     Ok tt).
Proof.
  intros Hg Hb Hz Hdp Hlen Hg0 Hcirc Hom Heta. unfold LinearMap_track. se_run.
  rewrite decide_False by done. se_run.
  rewrite decide_False by done. se_run.
  rewrite decide_False by done. se_run.
  rewrite decide_True by (by rewrite !length_map). se_run.
  rewrite decide_False by done. se_run.
  rewrite decide_True by (by rewrite !length_map). se_run.
  do 3 f_equal.
  - f_equal. apply list_eq. intros j.
    rewrite !lookup_zip_with, !list_lookup_fmap.
    by destruct (dps !! j), (zs !! j).
  - f_equal. f_equal. apply list_eq. intros j.
    rewrite !lookup_zip_with, !list_lookup_fmap.
    by destruct (zs !! j), (dps !! j).
Qed.




(** ** Further properties of the loss methods *)

Lemma scatter_mark_lost (ids : list Z) (mask : list bool) :
  length mask = length ids →
  scatter ids (np_where mask) 0%Z = Ok (mark_lost mask ids).
Proof.
  intros Hlen.
  destruct (scatter_np_where ids mask 0%Z Hlen) as (ids' & Hsc & Hl & Hlk).
  rewrite Hsc. f_equal. apply list_eq. intros j. rewrite Hlk.
  unfold mark_lost. rewrite lookup_zip_with.
  destruct (mask !! j) as [m|] eqn:Hm.
  - destruct m.
    + rewrite decide_True by done.
      destruct (ids !! j) as [k|] eqn:Hk; [done|].
      apply lookup_lt_Some in Hm. apply lookup_ge_None in Hk. lia.
    + rewrite decide_False by done. by destruct (ids !! j).
  - rewrite decide_False by done. simpl.
    apply lookup_ge_None in Hm. apply lookup_ge_None. lia.
Qed.

Lemma outside_mask_program (x_min x_max : R) (xs : list R) :
  map (λ p, bool_decide (p < 0)%R)
      (zip_with Rmult (map (λ a, a - x_min)%R xs) (map (Rminus x_max) xs))
  = outside_mask x_min x_max xs.
Proof.
  unfold outside_mask. apply list_eq. intros j.
  rewrite !list_lookup_fmap, lookup_zip_with, !list_lookup_fmap.
  by destruct (xs !! j).
Qed.

(** The cut as one case distinction: the identifiers are read only when some
    particle lies outside. *)
Lemma losses_cut_unfold coord (b : obj) xs x_min x_max :
  b !! coord = Some (VArr xs) →
  losses_cut coord x_min x_max b
  = if decide (length (np_where (outside_mask x_min x_max xs)) ≠ 0) then
      match b !! "id" with
      | Some v =>
          match fancy_assign_zero v (np_where (outside_mask x_min x_max xs)) with
          | Ok v' => (<["id" := v']> b, Ok tt)
          | Raise err => (b, Raise err)
          end
      | None => (b, Raise AttributeError)
      end
    else (b, Ok tt).
Proof.
  intros Hx. unfold losses_cut. se_run.
  rewrite decide_True by (by rewrite !length_map). se_run.
  rewrite outside_mask_program.
  destruct (decide (length (np_where (outside_mask x_min x_max xs)) ≠ 0));
    [|done].
  se_run. destruct (b !! "id") as [v|]; [|done].
  by destruct (fancy_assign_zero v _).
Qed.

Lemma losses_cut_closed coord (b : obj) xs ids x_min x_max :
  b !! coord = Some (VArr xs) → b !! "id" = Some (VIntArr ids) →
  length xs = length ids →
  losses_cut coord x_min x_max b
  = (<["id" := VIntArr (mark_lost (outside_mask x_min x_max xs) ids)]> b,
     Ok tt).
Proof.
  intros Hx Hid Hlen. rewrite (losses_cut_unfold coord b xs) by done.
  rewrite Hid. simpl.
  rewrite scatter_mark_lost by (unfold outside_mask; by rewrite length_map).
  simpl. case_decide as Hne; [done|].
  assert (Hnil : np_where (outside_mask x_min x_max xs) = []).
  { destruct (np_where _); [done|]. simpl in Hne. lia. }
  f_equal. symmetry. apply insert_id. rewrite Hid. do 2 f_equal.
  apply list_eq. intros j. unfold mark_lost. rewrite lookup_zip_with.
  destruct (outside_mask x_min x_max xs !! j) as [m|] eqn:Hm; simpl.
  - destruct m.
    + apply elem_of_np_where in Hm. rewrite Hnil in Hm.
      by apply elem_of_nil in Hm.
    + by destruct (ids !! j).
  - apply lookup_ge_None in Hm. unfold outside_mask in Hm.
    rewrite length_map in Hm. simpl. apply lookup_ge_None. lia.
Qed.

Lemma mark_lost_length mask ids :
  length mask = length ids → length (mark_lost mask ids) = length ids.
Proof. intros H. unfold mark_lost. rewrite length_zip_with. lia. Qed.

Lemma mark_lost_idem mask ids :
  mark_lost mask (mark_lost mask ids) = mark_lost mask ids.
Proof.
  unfold mark_lost. apply list_eq. intros j. rewrite !lookup_zip_with.
  destruct (mask !! j) as [[]|], (ids !! j); done.
Qed.

Lemma mark_lost_comm m1 m2 ids :
  mark_lost m1 (mark_lost m2 ids) = mark_lost m2 (mark_lost m1 ids).
Proof.
  unfold mark_lost. apply list_eq. intros j. rewrite !lookup_zip_with.
  destruct (m1 !! j) as [[]|], (m2 !! j) as [[]|], (ids !! j); done.
Qed.

Lemma outside_mask_swap x_min x_max xs :
  outside_mask x_min x_max xs = outside_mask x_max x_min xs.
Proof.
  unfold outside_mask. apply map_ext. intros x.
  apply bool_decide_ext. split; intros H; lra.
Qed.

Lemma count_lost_mark_lost mask ids :
  length mask = length ids →
  count_lost ids ≤ count_lost (mark_lost mask ids).
Proof.
  revert mask. induction ids as [|k ids IH]; intros mask Hlen; [simpl; lia|].
  destruct mask as [|m mask]; [done|]. simpl in Hlen.
  assert (IH' := IH mask ltac:(lia)). unfold mark_lost in *.
  cbn [zip_with count_lost].
  destruct m; destruct (decide (k = 0%Z)) as [->|Hk];
    repeat case_decide; try done; lia.
Qed.

(** X1.  The two bounds of a cut can be given in either order: on a beam,
    [losses_longitudinal_cut(a, b)] and [losses_longitudinal_cut(b, a)] do the
    same, and so do the two calls of [losses_energy_cut]. *)
Theorem losses_cut_bounds_swap (b : obj) dt dE ids (x1 x2 : R) :
  is_Beam b dt dE ids →
  losses_longitudinal_cut x1 x2 b = losses_longitudinal_cut x2 x1 b
  ∧ losses_energy_cut x1 x2 b = losses_energy_cut x2 x1 b.
Proof.
  intros (Hdt & HdE & Hid & Hl1 & Hl2).
  unfold losses_longitudinal_cut, losses_energy_cut.
  rewrite !(losses_cut_unfold "dt" b dt), !(losses_cut_unfold "dE" b dE)
    by done.
  by rewrite (outside_mask_swap x1 x2 dt), (outside_mask_swap x1 x2 dE).
Qed.

(** X2.  A cut applied twice with the same bounds leaves the beam as one
    application does, and a longitudinal cut and an energy cut give the same
    beam in either order. *)
Theorem losses_cut_idempotent_commute (b : obj) dt dE ids
    (dt_min dt_max dE_min dE_max : R) :
  is_Beam b dt dE ids →
  (losses_longitudinal_cut dt_min dt_max ;;
   losses_longitudinal_cut dt_min dt_max)%se b
  = losses_longitudinal_cut dt_min dt_max b
  ∧ (losses_energy_cut dE_min dE_max ;;
     losses_energy_cut dE_min dE_max)%se b
    = losses_energy_cut dE_min dE_max b
  ∧ (losses_longitudinal_cut dt_min dt_max ;;
     losses_energy_cut dE_min dE_max)%se b
    = (losses_energy_cut dE_min dE_max ;;
       losses_longitudinal_cut dt_min dt_max)%se b.
Proof.
  intros (Hdt & HdE & Hid & Hl1 & Hl2).
  assert (Hm1 : length (outside_mask dt_min dt_max dt) = length ids)
    by (unfold outside_mask; by rewrite length_map).
  assert (Hm2 : length (outside_mask dE_min dE_max dE) = length ids)
    by (unfold outside_mask; by rewrite length_map).
  unfold losses_longitudinal_cut, losses_energy_cut, se_bind.
  rewrite (losses_cut_closed "dt" b dt ids), (losses_cut_closed "dE" b dE ids)
    by done.
  split; [|split].
  - erewrite (losses_cut_closed "dt" _ dt);
      [| by rewrite lookup_insert_ne | apply lookup_insert_eq
       | by rewrite mark_lost_length ].
    by rewrite insert_insert_eq, mark_lost_idem.
  - erewrite (losses_cut_closed "dE" _ dE);
      [| by rewrite lookup_insert_ne | apply lookup_insert_eq
       | by rewrite mark_lost_length ].
    by rewrite insert_insert_eq, mark_lost_idem.
  - erewrite (losses_cut_closed "dE" _ dE);
      [| by rewrite lookup_insert_ne | apply lookup_insert_eq
       | by rewrite mark_lost_length ].
    erewrite (losses_cut_closed "dt" _ dt);
      [| by rewrite lookup_insert_ne | apply lookup_insert_eq
       | by rewrite mark_lost_length ].
    by rewrite !insert_insert_eq, mark_lost_comm.
Qed.

(** X3.  When no particle lies outside the bounds, a cut does not look at the
    identifiers at all: it ends without an exception and without any change,
    even on an object that has no [id].  When some particle lies outside and
    there is no [id], it ends with [AttributeError]. *)
Theorem losses_cut_reads_id_on_demand (b : obj) dt (dt_min dt_max : R) :
  b !! "dt" = Some (VArr dt) →
  ((∀ i x, dt !! i = Some x → ¬ ((x - dt_min) * (dt_max - x) < 0)%R) →
   losses_longitudinal_cut dt_min dt_max b = (b, Ok tt))
  ∧ ((∃ i x, dt !! i = Some x ∧ ((x - dt_min) * (dt_max - x) < 0)%R) →
     b !! "id" = None →
     losses_longitudinal_cut dt_min dt_max b = (b, Raise AttributeError)).
Proof.
  intros Hdt. unfold losses_longitudinal_cut.
  rewrite (losses_cut_unfold "dt" b dt) by done. split.
  - intros Hin. rewrite decide_False; [done|]. intros Hne. apply Hne.
    destruct (np_where (outside_mask dt_min dt_max dt)) as [|i rest] eqn:Hw;
      [done|].
    assert (Hi : i ∈ np_where (outside_mask dt_min dt_max dt))
      by (rewrite Hw; apply elem_of_cons; by left).
    apply elem_of_np_where in Hi. unfold outside_mask in Hi.
    rewrite list_lookup_fmap in Hi.
    destruct (dt !! i) as [x|] eqn:Hx; [|done]. simpl in Hi.
    injection Hi as Hi. apply bool_decide_eq_true in Hi.
    by destruct (Hin i x Hx).
  - intros (i & x & Hx & Hout) Hid. rewrite decide_True, Hid; [done|].
    assert (Hi : i ∈ np_where (outside_mask dt_min dt_max dt)).
    { apply elem_of_np_where. unfold outside_mask.
      rewrite list_lookup_fmap, Hx. simpl.
      by rewrite bool_decide_eq_true_2. }
    intros Hlen. destruct (np_where _); [by apply elem_of_nil in Hi|].
    simpl in Hlen. lia.
Qed.

(** X4.  A particle that lies outside the bounds at a position the array of
    identifiers does not have makes the cut end with [IndexError], and no
    identifier has been changed. *)
Theorem losses_cut_index_error (b : obj) dt ids (dt_min dt_max : R) i x :
  b !! "dt" = Some (VArr dt) → b !! "id" = Some (VIntArr ids) →
  dt !! i = Some x → ((x - dt_min) * (dt_max - x) < 0)%R →
  length ids ≤ i →
  losses_longitudinal_cut dt_min dt_max b = (b, Raise IndexError).
Proof.
  intros Hdt Hid Hx Hout Hge. unfold losses_longitudinal_cut.
  rewrite (losses_cut_unfold "dt" b dt) by done.
  assert (Hi : i ∈ np_where (outside_mask dt_min dt_max dt)).
  { apply elem_of_np_where. unfold outside_mask.
    rewrite list_lookup_fmap, Hx. simpl. by rewrite bool_decide_eq_true_2. }
  rewrite decide_True, Hid.
  - simpl. unfold scatter.
    destruct (forallb _ _) eqn:Hall; [|done].
    rewrite forallb_forall in Hall.
    specialize (Hall i (proj1 (list_elem_of_In _ _) Hi)).
    apply bool_decide_eq_true in Hall. lia.
  - intros Hlen. destruct (np_where _); [by apply elem_of_nil in Hi|].
    simpl in Hlen. lia.
Qed.

Lemma losses_separatrix_unfold (RFSP : Type)
    (is_in_separatrix :
       GeneralParameters → RFSP → obj → value → value → list bool)
    gp (rf : RFSP) (Beam b : obj) vdt vdE :
  b !! "dt" = Some vdt → b !! "dE" = Some vdE →
  losses_separatrix RFSP is_in_separatrix gp rf Beam b
  = if decide (length (np_where
                 (map negb (is_in_separatrix gp rf Beam vdt vdE))) ≠ 0) then
      match b !! "id" with
      | Some v =>
          match fancy_assign_zero v
                  (np_where (map negb (is_in_separatrix gp rf Beam vdt vdE)))
          with
          | Ok v' => (<["id" := v']> b, Ok tt)
          | Raise err => (b, Raise err)
          end
      | None => (b, Raise AttributeError)
      end
    else (b, Ok tt).
Proof.
  intros Hdt HdE. unfold losses_separatrix. se_run.
  assert (Hmask : map (λ inside : bool, bool_decide (inside = false))
                      (is_in_separatrix gp rf Beam vdt vdE)
                  = map negb (is_in_separatrix gp rf Beam vdt vdE)).
  { apply map_ext. by intros []. }
  rewrite Hmask.
  destruct (decide (length (np_where _) ≠ 0)); [|done].
  se_run. destruct (b !! "id") as [v|]; [|done].
  by destruct (fancy_assign_zero v _).
Qed.

Lemma mark_lost_all_false mask ids :
  length mask = length ids → np_where mask = [] → mark_lost mask ids = ids.
Proof.
  intros Hlen Hnil. apply list_eq. intros j. unfold mark_lost.
  rewrite lookup_zip_with.
  destruct (mask !! j) as [m|] eqn:Hm; simpl.
  - destruct m.
    + apply elem_of_np_where in Hm. rewrite Hnil in Hm.
      by apply elem_of_nil in Hm.
    + by destruct (ids !! j).
  - apply lookup_ge_None in Hm. symmetry. apply lookup_ge_None. lia.
Qed.

Lemma losses_separatrix_closed (RFSP : Type)
    (is_in_separatrix :
       GeneralParameters → RFSP → obj → value → value → list bool)
    gp (rf : RFSP) (Beam b : obj) dt dE ids :
  is_Beam b dt dE ids →
  length (is_in_separatrix gp rf Beam (VArr dt) (VArr dE)) = length ids →
  losses_separatrix RFSP is_in_separatrix gp rf Beam b
  = (<["id" := VIntArr
        (mark_lost (map negb (is_in_separatrix gp rf Beam (VArr dt) (VArr dE)))
                   ids)]> b, Ok tt).
Proof.
  intros (Hdt & HdE & Hid & Hl1 & Hl2) Hlen.
  rewrite (losses_separatrix_unfold _ _ _ _ _ _ (VArr dt) (VArr dE)) by done.
  rewrite Hid. simpl.
  rewrite scatter_mark_lost by (by rewrite length_map).
  simpl. case_decide as Hne; [done|].
  rewrite mark_lost_all_false; [by rewrite insert_id | by rewrite length_map |].
  destruct (np_where _); [done|]. simpl in Hne. lia.
Qed.

(** X5.  On a beam, and with a predicate that answers for every particle,
    [losses_separatrix] ends without an exception and changes [id] only:
    the entry of a particle the predicate places outside the separatrix
    becomes 0, every other entry keeps its value. *)
Theorem losses_separatrix_marks_outside (RFSP : Type)
    (is_in_separatrix :
       GeneralParameters → RFSP → obj → value → value → list bool)
    gp (rf : RFSP) (Beam b : obj) dt dE ids :
  is_Beam b dt dE ids →
  length (is_in_separatrix gp rf Beam (VArr dt) (VArr dE)) = length ids →
  ∃ ids',
    losses_separatrix RFSP is_in_separatrix gp rf Beam b
    = (<["id" := VIntArr ids']> b, Ok tt)
    ∧ length ids' = length ids
    ∧ ∀ i k (inside : bool),
        ids !! i = Some k →
        is_in_separatrix gp rf Beam (VArr dt) (VArr dE) !! i = Some inside →
        ids' !! i = Some (if inside then k else 0%Z).
Proof.
  intros HB Hlen. eexists. split; [by apply losses_separatrix_closed|].
  split; [apply mark_lost_length; by rewrite length_map|].
  intros i k inside Hk Hin. unfold mark_lost.
  rewrite lookup_zip_with, list_lookup_fmap, Hin, Hk. by destruct inside.
Qed.

Lemma mark_lost_keeps_lost mask ids i :
  length mask = length ids →
  ids !! i = Some 0%Z → mark_lost mask ids !! i = Some 0%Z.
Proof.
  intros Hlen Hi. unfold mark_lost. rewrite lookup_zip_with, Hi.
  destruct (mask !! i) as [[]|] eqn:Hm; simpl; try done.
  apply lookup_ge_None in Hm. apply lookup_lt_Some in Hi. lia.
Qed.

(** X6.  No loss method brings a particle back: after a longitudinal cut, an
    energy cut or a separatrix cut on a beam, every identifier that was 0 is
    still 0, so the number of lost particles has not gone down and the
    number of alive ones has not gone up. *)
Theorem losses_never_revive (RFSP : Type)
    (is_in_separatrix :
       GeneralParameters → RFSP → obj → value → value → list bool)
    gp (rf : RFSP) (Beam b : obj) dt dE ids (lo hi : R)
    (method : SE obj unit) :
  is_Beam b dt dE ids →
  length (is_in_separatrix gp rf Beam (VArr dt) (VArr dE)) = length ids →
  method = losses_longitudinal_cut lo hi ∨ method = losses_energy_cut lo hi
  ∨ method = losses_separatrix RFSP is_in_separatrix gp rf Beam →
  ∃ ids',
    method b = (<["id" := VIntArr ids']> b, Ok tt)
    ∧ (∀ i, ids !! i = Some 0%Z → ids' !! i = Some 0%Z)
    ∧ count_lost ids ≤ count_lost ids'
    ∧ count_alive ids' ≤ count_alive ids.
Proof.
  intros HB Hlen Hm.
  assert (Hgen : ∀ mask, length mask = length ids →
            (∀ i, ids !! i = Some 0%Z → mark_lost mask ids !! i = Some 0%Z)
            ∧ count_lost ids ≤ count_lost (mark_lost mask ids)
            ∧ count_alive (mark_lost mask ids) ≤ count_alive ids).
  { intros mask Hl. split; [intros i; by apply mark_lost_keeps_lost|].
    pose proof (count_lost_mark_lost mask ids Hl).
    pose proof (count_alive_lost ids).
    pose proof (count_alive_lost (mark_lost mask ids)) as Ht.
    rewrite mark_lost_length in Ht by done. lia. }
  destruct HB as (Hdt & HdE & Hid & Hl1 & Hl2).
  destruct Hm as [->|[->| ->]].
  - eexists. split; [by apply (losses_cut_closed "dt" b dt ids)|].
    apply Hgen. unfold outside_mask. by rewrite length_map.
  - eexists. split; [by apply (losses_cut_closed "dE" b dE ids)|].
    apply Hgen. unfold outside_mask. by rewrite length_map.
  - eexists. split; [by apply losses_separatrix_closed|].
    apply Hgen. by rewrite length_map.
Qed.

(** ** Further properties of the statistics *)

Lemma statistics_run (b : obj) dt dE ids :
  is_Beam b dt dE ids →
  statistics b
  = (<["n_macroparticles_lost" := VInt (Z.of_nat (count_lost ids))]>
      (<["epsn_rms_l" :=
           VFloat (PI * sigma_alive ids dE * sigma_alive ids dt)]>
        (<["sigma_dE" := VFloat (sigma_alive ids dE)]>
          (<["sigma_dt" := VFloat (sigma_alive ids dt)]>
            (<["mean_dE" := VFloat (mean_alive ids dE)]>
              (<["mean_dt" := VFloat (mean_alive ids dt)]> b))))),
     Ok tt).
Proof.
  intros (Hdt & HdE & Hid & Hl1 & Hl2).
  unfold statistics. se_run.
  fold (alive_mask ids). fold (lost_mask ids).
  repeat (rewrite gather_np_where
            by (unfold alive_mask; rewrite !length_map; lia); se_run).
  rewrite !np_mean_alive, !np_std_alive by done.
  fold (lost_mask ids). by rewrite length_np_where_lost.
Qed.

(** X7.  On a beam, lost particles or not, [statistics()] ends without an
    exception, leaves [dt], [dE] and [id] as they are, stores the number of
    zero identifiers in [n_macroparticles_lost], and a second call right
    after the first changes nothing more. *)
Theorem statistics_total_idempotent (b : obj) dt dE ids :
  is_Beam b dt dE ids →
  ∃ b' : obj,
    statistics b = (b', Ok tt)
    ∧ is_Beam b' dt dE ids
    ∧ b' !! "n_macroparticles_lost" = Some (VInt (Z.of_nat (count_lost ids)))
    ∧ (statistics ;; statistics)%se b = (b', Ok tt).
Proof.
  intros HB. pose proof (statistics_run b dt dE ids HB) as Hrun.
  destruct HB as (Hdt & HdE & Hid & Hl1 & Hl2).
  eexists. split; [exact Hrun|].
  assert (HB' : is_Beam
    (<["n_macroparticles_lost" := VInt (Z.of_nat (count_lost ids))]>
      (<["epsn_rms_l" :=
           VFloat (PI * sigma_alive ids dE * sigma_alive ids dt)]>
        (<["sigma_dE" := VFloat (sigma_alive ids dE)]>
          (<["sigma_dt" := VFloat (sigma_alive ids dt)]>
            (<["mean_dE" := VFloat (mean_alive ids dE)]>
              (<["mean_dt" := VFloat (mean_alive ids dt)]> b))))))
    dt dE ids).
  { unfold is_Beam. by rewrite !lookup_insert_ne by done. }
  split; [exact HB'|]. split; [apply lookup_insert_eq|].
  unfold se_bind. rewrite Hrun. rewrite (statistics_run _ dt dE ids HB').
  f_equal. apply map_eq. intros name.
  repeat (rewrite lookup_insert; case_decide;
          [subst name;
           by repeat first [rewrite lookup_insert_eq
                           | rewrite lookup_insert_ne by done]|]).
  done.
Qed.

Lemma gather_out_of_range {A} (a : list A) (itemindex : list nat) i :
  i ∈ itemindex → length a ≤ i → gather a itemindex = Raise IndexError.
Proof.
  intros Hin Hge. induction itemindex as [|j rest IH];
    [by apply elem_of_nil in Hin|].
  simpl. destruct (a !! j) as [x|] eqn:Hj; [|done].
  apply elem_of_cons in Hin as [->|Hin].
  - apply lookup_lt_Some in Hj. lia.
  - by rewrite (IH Hin).
Qed.

(** X8.  When an alive particle sits at a position the array [dt] does not
    have, [statistics()] ends with [IndexError] and has assigned nothing. *)
Theorem statistics_index_error (b : obj) dt ids i k :
  b !! "id" = Some (VIntArr ids) → b !! "dt" = Some (VArr dt) →
  ids !! i = Some k → k ≠ 0%Z → length dt ≤ i →
  statistics b = (b, Raise IndexError).
Proof.
  intros Hid Hdt Hi Hk Hge. unfold statistics. se_run.
  rewrite (gather_out_of_range dt _ i); [done| |done].
  apply elem_of_np_where. rewrite !list_lookup_fmap, Hi. simpl.
  rewrite bool_decide_eq_true_2; [done|].
  intros H0. by apply eq_IZR_R0 in H0.
Qed.

(** X9.  [n_macroparticles_alive] is [n_macroparticles] minus the count the
    last [statistics()] stored: right after a cut it still gives the number
    from before the cut, and after [statistics()] it gives the number of
    nonzero identifiers. *)
Theorem n_macroparticles_alive_stale_until_statistics (b : obj) dt dE ids
    (lost : Z) (dt_min dt_max : R) :
  is_Beam b dt dE ids →
  b !! "n_macroparticles" = Some (VInt (Z.of_nat (length ids))) →
  b !! "n_macroparticles_lost" = Some (VInt lost) →
  ∃ b1 b2 : obj,
    n_macroparticles_alive b = (b, Ok (VInt (Z.of_nat (length ids) - lost)))
    ∧ (losses_longitudinal_cut dt_min dt_max ;; n_macroparticles_alive)%se b
      = (b1, Ok (VInt (Z.of_nat (length ids) - lost)))
    ∧ (losses_longitudinal_cut dt_min dt_max ;; statistics ;;
       n_macroparticles_alive)%se b
      = (b2, Ok (VInt (Z.of_nat
                   (count_alive
                      (mark_lost (outside_mask dt_min dt_max dt) ids))))).
Proof.
  intros HB Hn Hlost. pose proof HB as (Hdt & HdE & Hid & Hl1 & Hl2).
  assert (HB1 : is_Beam
            (<["id" := VIntArr (mark_lost (outside_mask dt_min dt_max dt) ids)]> b)
            dt dE (mark_lost (outside_mask dt_min dt_max dt) ids)).
  { unfold is_Beam. rewrite lookup_insert_eq, !lookup_insert_ne by done.
    rewrite mark_lost_length by (unfold outside_mask; by rewrite length_map).
    done. }
  eexists _, _. split; [|split].
  - unfold n_macroparticles_alive. se_run. done.
  - unfold losses_longitudinal_cut, se_bind.
    rewrite (losses_cut_closed "dt" b dt ids) by done.
    unfold n_macroparticles_alive. se_run. done.
  - unfold losses_longitudinal_cut, se_bind.
    rewrite (losses_cut_closed "dt" b dt ids) by done.
    rewrite (statistics_run _ _ _ _ HB1).
    unfold n_macroparticles_alive. se_run. simpl.
    pose proof (count_alive_lost
                  (mark_lost (outside_mask dt_min dt_max dt) ids)) as Hc.
    rewrite mark_lost_length in Hc
      by (unfold outside_mask; by rewrite length_map).
    do 3 f_equal. lia.
Qed.

(** ** Further properties of the constructor *)

Lemma Beam_init_run gp n intensity bt g en p :
  index_0_0 (beta gp) = Ok bt → index_0_0 (gamma gp) = Ok g →
  index_0_0 (energy gp) = Ok en → index_0_0 (momentum gp) = Ok p →
  (0 < n)%Z →
  Beam_new gp n intensity
  = Ok (<["id" := VIntArr (np_arange 1 (n + 1))]>
        (<["n_macroparticles_lost" := VInt 0]>
        (<["ratio" := VFloat (pynumber_R intensity / IZR n)]>
        (<["n_macroparticles" := VInt n]>
        (<["intensity" := pynumber_value intensity]>
        (<["sigma_dE" := VInt 0]>
        (<["sigma_dt" := VInt 0]>
        (<["mean_dE" := VInt 0]>
        (<["mean_dt" := VInt 0]>
        (<["dE" := VArr (replicate (Z.to_nat n) 0%R)]>
        (<["dt" := VArr (replicate (Z.to_nat n) 0%R)]>
        (<["momentum" := VFloat p]>
        (<["energy" := VFloat en]>
        (<["gamma" := VFloat g]>
        (<["beta" := VFloat bt]>
        (<["charge" := VInt (charge gp)]>
        (<["mass" := VFloat (mass gp)]> ∅))))))))))))))))).
Proof.
  intros Hb Hg He Hp Hn. unfold Beam_new, Beam_init, np_zeros, py_truediv.
  se_run. rewrite Hb. se_run. rewrite Hg. se_run. rewrite He. se_run.
  rewrite Hp. se_run.
  replace (n <? 0)%Z with false by (symmetry; apply Z.ltb_ge; lia). se_run.
  replace (n =? 0)%Z with false by (symmetry; apply Z.eqb_neq; lia). se_run.
  done.
Qed.

Lemma lookup_np_arange (start stop : Z) (i : nat) :
  i < Z.to_nat (stop - start) →
  np_arange start stop !! i = Some (start + Z.of_nat i)%Z.
Proof.
  intros Hi. unfold np_arange.
  rewrite list_lookup_fmap, lookup_seq_lt by done. done.
Qed.

Lemma count_lost_np_arange_1 (stop : Z) : count_lost (np_arange 1 stop) = 0.
Proof.
  unfold np_arange. generalize (Z.to_nat (stop - 1)) as m. intros m.
  assert (Hgen : ∀ s, count_lost
                   (map (λ k : nat, (1 + Z.of_nat k)%Z) (seq s m)) = 0).
  { induction m as [|m IH]; intros s; [done|]. simpl.
    rewrite decide_False by lia. by rewrite IH. }
  apply Hgen.
Qed.

(** X10.  With a positive count and a configuration whose four arrays have
    an entry [[0][0]], the constructor returns a beam: [dt] and [dE] are [n]
    zeros, [id] counts from 1 to [n] so that no particle is lost, [ratio] is
    the intensity divided by [n], and [n_macroparticles_alive] is [n]. *)
Theorem Beam_new_all_alive gp n intensity bt g en p :
  index_0_0 (beta gp) = Ok bt → index_0_0 (gamma gp) = Ok g →
  index_0_0 (energy gp) = Ok en → index_0_0 (momentum gp) = Ok p →
  (0 < n)%Z →
  ∃ b : obj,
    Beam_new gp n intensity = Ok b
    ∧ is_Beam b (replicate (Z.to_nat n) 0%R) (replicate (Z.to_nat n) 0%R)
              (np_arange 1 (n + 1))
    ∧ length (np_arange 1 (n + 1)) = Z.to_nat n
    ∧ (∀ i, i < Z.to_nat n →
         np_arange 1 (n + 1) !! i = Some (Z.of_nat i + 1)%Z)
    ∧ count_lost (np_arange 1 (n + 1)) = 0
    ∧ b !! "ratio" = Some (VFloat (pynumber_R intensity / IZR n))
    ∧ n_macroparticles_alive b = (b, Ok (VInt n)).
Proof.
  intros Hb Hg He Hp Hn. eexists. split; [by apply Beam_init_run|].
  assert (Hlen : length (np_arange 1 (n + 1)) = Z.to_nat n).
  { unfold np_arange. rewrite length_map, length_seq. lia. }
  split; [|split; [done|split; [|split; [|split]]]].
  - unfold is_Beam.
    repeat split;
      try (by repeat first [rewrite lookup_insert_eq
                           | rewrite lookup_insert_ne by done]).
    + by rewrite length_replicate.
    + by rewrite length_replicate.
  - intros i Hi. rewrite lookup_np_arange by lia. f_equal. lia.
  - apply count_lost_np_arange_1.
  - by repeat first [rewrite lookup_insert_eq
                    | rewrite lookup_insert_ne by done].
  - unfold n_macroparticles_alive. se_run. simpl. do 3 f_equal. lia.
Qed.

(** X11.  The constructor reads the configuration before it allocates
    anything: a configuration array without an entry [[0][0]] gives
    [IndexError] whatever the count, and with a readable configuration a
    negative count gives [ValueError]. *)
Theorem Beam_new_errors gp n intensity :
  (index_0_0 (beta gp) = Raise IndexError
   ∨ index_0_0 (gamma gp) = Raise IndexError
   ∨ index_0_0 (energy gp) = Raise IndexError
   ∨ index_0_0 (momentum gp) = Raise IndexError →
   Beam_new gp n intensity = Raise IndexError)
  ∧ ((∃ bt g en p,
        index_0_0 (beta gp) = Ok bt ∧ index_0_0 (gamma gp) = Ok g
        ∧ index_0_0 (energy gp) = Ok en ∧ index_0_0 (momentum gp) = Ok p) →
     (n < 0)%Z →
     Beam_new gp n intensity = Raise ValueError).
Proof.
  assert (Hkind : ∀ a, (∃ x, index_0_0 a = Ok x)
                       ∨ index_0_0 a = Raise IndexError).
  { intros [|[|x ?] ?]; simpl; eauto. }
  split.
  - intros Hbad. unfold Beam_new, Beam_init. se_run.
    destruct (Hkind (beta gp)) as [[bt Hb]|Hb]; rewrite Hb; se_run; [|done].
    destruct (Hkind (gamma gp)) as [[g Hg]|Hg]; rewrite Hg; se_run; [|done].
    destruct (Hkind (energy gp)) as [[en He]|He]; rewrite He; se_run; [|done].
    destruct (Hkind (momentum gp)) as [[p Hp]|Hp]; rewrite Hp; se_run;
      [|done].
    destruct Hbad as [H|[H|[H|H]]]; congruence.
  - intros (bt & g & en & p & Hb & Hg & He & Hp) Hn.
    unfold Beam_new, Beam_init, np_zeros. se_run.
    rewrite Hb. se_run. rewrite Hg. se_run. rewrite He. se_run.
    rewrite Hp. se_run.
    replace (n <? 0)%Z with true by (symmetry; apply Z.ltb_lt; lia).
    se_run. done.
Qed.

Lemma sum_alive_zeros (f : R → R) ids n :
  f 0%R = 0%R → sum_alive f ids (replicate n 0%R) = 0%R.
Proof.
  intros Hf. revert n. induction ids as [|k ids IH]; intros n; [done|].
  destruct n as [|n]; [done|]. simpl. rewrite IH.
  destruct (decide (k = 0%Z)); [lra | rewrite Hf; lra].
Qed.

Lemma mean_alive_zeros ids n : mean_alive ids (replicate n 0%R) = 0%R.
Proof.
  unfold mean_alive. rewrite sum_alive_zeros by done. unfold Rdiv. ring.
Qed.

Lemma sigma_alive_zeros ids n : sigma_alive ids (replicate n 0%R) = 0%R.
Proof.
  unfold sigma_alive. rewrite mean_alive_zeros.
  rewrite sum_alive_zeros by (simpl; ring).
  replace (0 / INR (count_alive ids))%R with 0%R by (unfold Rdiv; ring).
  apply sqrt_0.
Qed.

Lemma Beam_new_is_Beam gp n intensity (b : obj) :
  Beam_new gp n intensity = Ok b →
  is_Beam b (replicate (Z.to_nat n) 0%R) (replicate (Z.to_nat n) 0%R)
          (np_arange 1 (n + 1)).
Proof.
  intros Hnew. apply Beam_new_inv in Hnew as (Hpos & bt & g & en & p & ->).
  unfold is_Beam.
  repeat split;
    try (by repeat first [rewrite lookup_insert_eq
                         | rewrite lookup_insert_ne by done]).
  - unfold np_arange. rewrite length_replicate, length_map, length_seq. lia.
  - unfold np_arange. rewrite length_replicate, length_map, length_seq. lia.
Qed.

(** X12.  [statistics()] on a beam fresh from the constructor ends without
    an exception and finds a point beam: the two means, the two standard
    deviations and the emittance are 0, and no particle is lost. *)
Theorem statistics_of_new_Beam gp n intensity (b : obj) :
  Beam_new gp n intensity = Ok b →
  ∃ b' : obj,
    statistics b = (b', Ok tt)
    ∧ b' !! "mean_dt" = Some (VFloat 0) ∧ b' !! "mean_dE" = Some (VFloat 0)
    ∧ b' !! "sigma_dt" = Some (VFloat 0) ∧ b' !! "sigma_dE" = Some (VFloat 0)
    ∧ b' !! "epsn_rms_l" = Some (VFloat 0)
    ∧ b' !! "n_macroparticles_lost" = Some (VInt 0).
Proof.
  intros Hnew. pose proof (Beam_new_is_Beam gp n intensity b Hnew) as HB.
  eexists. split; [by apply (statistics_run b _ _ _ HB)|].
  rewrite !mean_alive_zeros, !sigma_alive_zeros, count_lost_np_arange_1.
  repeat split;
    try (by repeat first [rewrite lookup_insert_eq
                         | rewrite lookup_insert_ne by done]).
  rewrite lookup_insert_ne, lookup_insert_eq by done. do 2 f_equal. ring.
Qed.

(** ** Further properties of the kicks *)

Lemma zip_with_zip_with_l {A B} (f g : A → B → A) (l : list A) (k : list B) :
  zip_with f (zip_with g l k) k = zip_with (λ x y, f (g x y) y) l k.
Proof.
  apply list_eq. intros j. rewrite !lookup_zip_with.
  by destruct (l !! j), (k !! j).
Qed.

Lemma kick_sum_cons (k : Kick) (ks : list Kick) t :
  kick_sum (k :: ks) t
  = (elementary_charge * k_voltage k * sin (k_harmonic k * t + k_phi_offset k)
     + kick_sum ks t)%R.
Proof. reflexivity. Qed.

Lemma for_each_Kick_track_sum (ks : list Kick) (w : World) dE theta :
  w_beam w !! "dE" = Some (VArr dE) →
  w_beam w !! "theta" = Some (VArr theta) →
  length theta = length dE →
  for_each Kick_track ks w
  = (mkWorld (w_ring w)
       (<["dE" := VArr (zip_with (λ d t, d + kick_sum ks t)%R dE theta)]>
          (w_beam w))
       (w_p_increment w) (w_stdout w), Ok tt).
Proof.
  revert w dE. induction ks as [|k ks IH]; intros w dE HdE Hth Hlen.
  - simpl. unfold se_ret. f_equal. destruct w as [ring beam p out]. simpl in *.
    f_equal. symmetry. apply insert_id. rewrite HdE. do 2 f_equal.
    apply list_eq. intros j. rewrite lookup_zip_with.
    destruct (dE !! j) as [d|] eqn:Hd; simpl; [|done].
    destruct (theta !! j) as [t|] eqn:Ht; simpl.
    + f_equal. lra.
    + apply lookup_lt_Some in Hd. apply lookup_ge_None in Ht. lia.
  - simpl. unfold se_bind.
    rewrite (Kick_track_run k w dE theta HdE Hth Hlen).
    erewrite IH;
      [| simpl; apply lookup_insert_eq
       | simpl; by rewrite lookup_insert_ne
       | rewrite length_zip_with; lia ].
    simpl. rewrite insert_insert_eq, zip_with_zip_with_l.
    do 4 f_equal. apply list_eq. intros j. rewrite !lookup_zip_with.
    destruct (dE !! j), (theta !! j); simpl; try done.
    f_equal. unfold kick_sum. simpl. lra.
Qed.

Lemma kick_sum_Permutation (ks ks' : list Kick) t :
  ks ≡ₚ ks' → kick_sum ks t = kick_sum ks' t.
Proof.
  induction 1 as [|k l l' _ IH|k1 k2 l|l1 l2 l3 _ IH1 _ IH2].
  - done.
  - by rewrite !kick_sum_cons, IH.
  - rewrite !kick_sum_cons. lra.
  - by rewrite IH1.
Qed.

(** X13.  The kicks add up: on a beam whose [dE] and [theta] are arrays of
    one length, running a list of kicks one after the other adds to every
    [dE[j]] the sum of [e * voltage * sin(harmonic * theta[j] + phi_offset)]
    over the kicks, and so the order of the kicks does not matter. *)
Theorem kicks_add_up (ks ks' : list Kick) (w : World) dE theta :
  w_beam w !! "dE" = Some (VArr dE) →
  w_beam w !! "theta" = Some (VArr theta) →
  length theta = length dE →
  for_each Kick_track ks w
  = (mkWorld (w_ring w)
       (<["dE" := VArr (zip_with (λ d t, d + kick_sum ks t)%R dE theta)]>
          (w_beam w))
       (w_p_increment w) (w_stdout w), Ok tt)
  ∧ (ks ≡ₚ ks' → for_each Kick_track ks w = for_each Kick_track ks' w).
Proof.
  intros HdE Hth Hlen. split; [by apply for_each_Kick_track_sum|].
  intros Hperm. rewrite !(for_each_Kick_track_sum _ w dE theta) by done.
  do 4 f_equal. apply list_eq. intros j. rewrite !lookup_zip_with.
  destruct (dE !! j), (theta !! j); simpl; try done.
  by rewrite (kick_sum_Permutation ks ks').
Qed.

(** X14.  [Kick.track] follows numpy's rule for the in-place sum: a [theta]
    of one entry is used for every particle, and a [theta] of any other
    length than [dE]'s makes the call end with [ValueError], the beam
    unchanged. *)
Theorem Kick_track_shapes (k : Kick) ring (beam : obj) p out dE theta :
  beam !! "dE" = Some (VArr dE) → beam !! "theta" = Some (VArr theta) →
  length theta ≠ length dE →
  (∀ t, theta = [t] →
     Kick_track k (mkWorld ring beam p out)
     = (mkWorld ring
          (<["dE" := VArr (map (λ d, d + elementary_charge * k_voltage k
                                       * sin (k_harmonic k * t
                                              + k_phi_offset k))%R dE)]> beam)
          p out, Ok tt))
  ∧ (length theta ≠ 1 →
     Kick_track k (mkWorld ring beam p out)
     = (mkWorld ring beam p out, Raise ValueError)).
Proof.
  intros HdE Hth Hne. split.
  - intros t ->. unfold Kick_track. se_run.
    rewrite decide_False by done. se_run. done.
  - intros Hne1. unfold Kick_track. se_run.
    rewrite decide_False by (by rewrite length_map).
    destruct theta as [|t1 [|t2 theta]]; simpl in *; try done.
Qed.

(** ** Further properties of the tracker *)

Lemma se_bind_ret_unit {S} (m : SE S unit) (s : S) :
  (m ;; se_ret tt)%se s = m s.
Proof. unfold se_bind, se_ret. by destruct (m s) as [s' [[]|err]]. Qed.

Lemma length_turn_energy ring beam ks dE theta :
  length theta = length dE →
  length (turn_energy ring beam ks dE theta) = length dE.
Proof.
  intros H. unfold turn_energy. rewrite length_map, length_zip_with. lia.
Qed.

(** One call of [track] up to the drift. *)
Lemma track_to_drift (tr : Longitudinal_tracker) (d : Drift) (w : World)
    dE theta :
  elements tr = map EKick (kicks tr) ++ [EKick_acceleration; EDrift d] →
  w_beam w !! "dE" = Some (VArr dE) →
  w_beam w !! "theta" = Some (VArr theta) →
  length theta = length dE →
  Longitudinal_tracker_track tr w
  = Drift_track d
      (mkWorld (Ring_advance (w_ring w))
         (<["dE" := VArr (turn_energy (w_ring w) (w_beam w) (kicks tr)
                            dE theta)]> (w_beam w))
         (p0_f (w_ring w) - p0_i (w_ring w))%R (w_stdout w)).
Proof.
  intros Helems HdE Hth Hlen.
  unfold Longitudinal_tracker_track. rewrite Helems.
  unfold se_bind at 1 2, se_get, set_p_increment, se_modify.
  rewrite for_each_app. unfold se_bind at 1.
  rewrite for_each_EKick.
  rewrite (for_each_Kick_track_sum (kicks tr) _ dE theta) by done.
  cbn [for_each]. unfold se_bind at 1.
  erewrite Kick_acceleration_track_run by (simpl; apply lookup_insert_eq).
  rewrite se_bind_ret_unit. simpl. rewrite insert_insert_eq. done.
Qed.

Lemma track_run (tr : Longitudinal_tracker) (d : Drift) (w : World)
    dE theta delta :
  elements tr = map EKick (kicks tr) ++ [EKick_acceleration; EDrift d] →
  w_beam w !! "dE" = Some (VArr dE) →
  w_beam w !! "theta" = Some (VArr theta) →
  w_beam w !! "delta" = Some (VArr delta) →
  length theta = length dE → length theta = length delta →
  Longitudinal_tracker_track tr w
  = let ring' := Ring_advance (w_ring w) in
    let beam' := <["dE" := VArr (turn_energy (w_ring w) (w_beam w) (kicks tr)
                                   dE theta)]> (w_beam w) in
    let p := (p0_f (w_ring w) - p0_i (w_ring w))%R in
    if decide (d_solver d = "full") then
      (mkWorld ring'
         (<["theta" := VArr (zip_with (drift_full ring' beam') theta delta)]>
            beam') p (w_stdout w), Ok tt)
    else if decide (d_solver d = "simple") then
      (mkWorld ring'
         (<["theta" := VArr (zip_with (drift_simple ring' beam') theta delta)]>
            beam') p (w_stdout w), Ok tt)
    else
      (mkWorld ring' beam' p
         (w_stdout w
          ++ ["ERROR: Choice of longitudinal solver not recognized! Aborting..."]),
       Raise SystemExit).
Proof.
  intros Helems HdE Hth Hde Hl1 Hl2.
  rewrite (track_to_drift tr d w dE theta) by done.
  erewrite Drift_track_run;
    [| simpl; rewrite lookup_insert_ne by done; exact Hth
     | simpl; rewrite lookup_insert_ne by done; exact Hde
     | done ].
  done.
Qed.

(** X15.  One turn in closed form, for a tracker built by the constructor, a
    ring whose [beta_i] is never zero and a beam whose [dE], [theta] and
    [delta] are arrays of one length: [dE]
    receives the sum of the kicks and then the ramp term
    [-(beta_i + beta_f)/2 * c * (p0_f - p0_i)], and [theta] is then drifted
    with the chosen solver, the ring's members being evaluated after the
    counter has been advanced and on the beam with its new [dE]. *)
Theorem Longitudinal_tracker_track_closed_form (solver : string)
    (w0 w1 : World) (tr : Longitudinal_tracker) (w : World) dE theta delta :
  (∀ ring beam, beta_i ring beam ≠ 0%R) →
  Longitudinal_tracker_init solver w0 = (w1, Ok tr) →
  w_beam w !! "dE" = Some (VArr dE) →
  w_beam w !! "theta" = Some (VArr theta) →
  w_beam w !! "delta" = Some (VArr delta) →
  length theta = length dE → length theta = length delta →
  let ring' := Ring_advance (w_ring w) in
  let beam' := <["dE" := VArr (turn_energy (w_ring w) (w_beam w) (kicks tr)
                                 dE theta)]> (w_beam w) in
  let p := (p0_f (w_ring w) - p0_i (w_ring w))%R in
  (solver = "full" →
   Longitudinal_tracker_track tr w
   = (mkWorld ring'
        (<["theta" := VArr (zip_with (drift_full ring' beam') theta delta)]>
           beam') p (w_stdout w), Ok tt))
  ∧ (solver = "simple" →
     Longitudinal_tracker_track tr w
     = (mkWorld ring'
          (<["theta" := VArr (zip_with (drift_simple ring' beam') theta delta)]>
             beam') p (w_stdout w), Ok tt)).
Proof.
  intros _ Hinit HdE Hth Hde Hl1 Hl2 ring' beam' p.
  apply Longitudinal_tracker_init_inv in Hinit as (_ & Helems & _).
  pose proof (track_run tr (Drift_init solver) w dE theta delta
                Helems HdE Hth Hde Hl1 Hl2) as Hrun.
  simpl in Hrun. split; intros ->.
  - by rewrite decide_True in Hrun.
  - by rewrite decide_False, decide_True in Hrun.
Qed.

(** X16.  With an unrecognized solver the tracker stops only in the drift
    (the ring's [beta_i] being never zero): when [track] leaves through [sys.exit()], the kicks and the acceleration
    kick of that turn have been applied to [dE], [p_increment] has been set
    and the counter has been advanced; [theta] is untouched and the error
    line has been printed. *)
Theorem Longitudinal_tracker_track_exit_state (solver : string)
    (w0 w1 : World) (tr : Longitudinal_tracker) (w : World) dE theta delta :
  (∀ ring beam, beta_i ring beam ≠ 0%R) →
  Longitudinal_tracker_init solver w0 = (w1, Ok tr) →
  solver ≠ "full" → solver ≠ "simple" →
  w_beam w !! "dE" = Some (VArr dE) →
  w_beam w !! "theta" = Some (VArr theta) →
  w_beam w !! "delta" = Some (VArr delta) →
  length theta = length dE → length theta = length delta →
  Longitudinal_tracker_track tr w
  = (mkWorld (Ring_advance (w_ring w))
       (<["dE" := VArr (turn_energy (w_ring w) (w_beam w) (kicks tr)
                          dE theta)]> (w_beam w))
       (p0_f (w_ring w) - p0_i (w_ring w))%R
       (w_stdout w
        ++ ["ERROR: Choice of longitudinal solver not recognized! Aborting..."]),
     Raise SystemExit).
Proof.
  intros _ Hinit Hf Hs HdE Hth Hde Hl1 Hl2.
  apply Longitudinal_tracker_init_inv in Hinit as (_ & Helems & _).
  rewrite (track_run tr (Drift_init solver) w dE theta delta) by done.
  simpl. by rewrite !decide_False.
Qed.

Lemma track_turn_shape (tr : Longitudinal_tracker) (d : Drift) (w : World)
    dE theta delta :
  elements tr = map EKick (kicks tr) ++ [EKick_acceleration; EDrift d] →
  d_solver d = "full" ∨ d_solver d = "simple" →
  w_beam w !! "dE" = Some (VArr dE) →
  w_beam w !! "theta" = Some (VArr theta) →
  w_beam w !! "delta" = Some (VArr delta) →
  length theta = length dE → length theta = length delta →
  ∃ w' dE' theta',
    Longitudinal_tracker_track tr w = (w', Ok tt)
    ∧ counter (w_ring w') = (counter (w_ring w) + 1)%Z
    ∧ w_beam w' !! "dE" = Some (VArr dE')
    ∧ w_beam w' !! "theta" = Some (VArr theta')
    ∧ w_beam w' !! "delta" = Some (VArr delta)
    ∧ length dE' = length dE ∧ length theta' = length theta.
Proof.
  intros Helems Hsolver HdE Hth Hde Hl1 Hl2.
  rewrite (track_run tr d w dE theta delta) by done. cbv zeta.
  destruct Hsolver as [Hs|Hs].
  - rewrite decide_True by done. eexists _, _, _. split; [done|]. simpl.
    split; [done|].
    split; [rewrite lookup_insert_ne by done; apply lookup_insert_eq|].
    split; [apply lookup_insert_eq|].
    split; [by rewrite !lookup_insert_ne by done|].
    rewrite length_zip_with, length_turn_energy by done. lia.
  - rewrite decide_False, decide_True by (done || by rewrite Hs).
    eexists _, _, _. split; [done|]. simpl.
    split; [done|].
    split; [rewrite lookup_insert_ne by done; apply lookup_insert_eq|].
    split; [apply lookup_insert_eq|].
    split; [by rewrite !lookup_insert_ne by done|].
    rewrite length_zip_with, length_turn_energy by done. lia.
Qed.

Lemma track_turns (tr : Longitudinal_tracker) (d : Drift) (n : nat) :
  elements tr = map EKick (kicks tr) ++ [EKick_acceleration; EDrift d] →
  d_solver d = "full" ∨ d_solver d = "simple" →
  ∀ (w : World) dE theta delta,
    w_beam w !! "dE" = Some (VArr dE) →
    w_beam w !! "theta" = Some (VArr theta) →
    w_beam w !! "delta" = Some (VArr delta) →
    length theta = length dE → length theta = length delta →
    ∃ w' dE' theta',
      for_each (λ _ : unit, Longitudinal_tracker_track tr) (replicate n tt) w
      = (w', Ok tt)
      ∧ counter (w_ring w') = (counter (w_ring w) + Z.of_nat n)%Z
      ∧ w_beam w' !! "dE" = Some (VArr dE')
      ∧ w_beam w' !! "theta" = Some (VArr theta')
      ∧ w_beam w' !! "delta" = Some (VArr delta)
      ∧ length dE' = length dE ∧ length theta' = length theta.
Proof.
  intros Helems Hsolver. induction n as [|n IH];
    intros w dE theta delta HdE Hth Hde Hl1 Hl2.
  - exists w, dE, theta. simpl. unfold se_ret. repeat split; try done. lia.
  - destruct (track_turn_shape tr d w dE theta delta)
      as (w1 & dE1 & theta1 & Hrun1 & Hc1 & HdE1 & Hth1 & Hde1 & Hl3 & Hl4);
      try done.
    destruct (IH w1 dE1 theta1 delta)
      as (w' & dE' & theta' & Hrun & Hc & H1 & H2 & H3 & H4 & H5);
      try done; try lia.
    exists w', dE', theta'. cbn [replicate for_each]. unfold se_bind.
    rewrite Hrun1, Hrun. repeat split; try done; lia.
Qed.

(** X17.  Turns compose: with solver ["full"] or ["simple"] and a ring
    whose [beta_i] is never zero, [n] calls of
    [track] in a row all end without an exception, leave [dE], [theta] and
    [delta] arrays of the length they had, never touch [delta], and advance
    the counter of the ring by exactly [n]. *)
Theorem Longitudinal_tracker_track_n_turns (solver : string)
    (w0 w1 : World) (tr : Longitudinal_tracker) (n : nat) (w : World)
    dE theta delta :
  (∀ ring beam, beta_i ring beam ≠ 0%R) →
  Longitudinal_tracker_init solver w0 = (w1, Ok tr) →
  solver = "full" ∨ solver = "simple" →
  w_beam w !! "dE" = Some (VArr dE) →
  w_beam w !! "theta" = Some (VArr theta) →
  w_beam w !! "delta" = Some (VArr delta) →
  length theta = length dE → length theta = length delta →
  ∃ w' dE' theta',
    for_each (λ _ : unit, Longitudinal_tracker_track tr) (replicate n tt) w
    = (w', Ok tt)
    ∧ counter (w_ring w') = (counter (w_ring w) + Z.of_nat n)%Z
    ∧ w_beam w' !! "dE" = Some (VArr dE')
    ∧ w_beam w' !! "theta" = Some (VArr theta')
    ∧ w_beam w' !! "delta" = Some (VArr delta)
    ∧ length dE' = length dE ∧ length theta' = length theta.
Proof.
  intros _ Hinit Hsolver HdE Hth Hde Hl1 Hl2.
  apply Longitudinal_tracker_init_inv in Hinit as (_ & Helems & _).
  by apply (track_turns tr (Drift_init solver) n Helems Hsolver).
Qed.

(** ** Further properties of the drift *)

Lemma Drift_track_missing_theta (d : Drift) (w : World) :
  w_beam w !! "theta" = None → Drift_track d w = (w, Raise AttributeError).
Proof.
  intros Hth. unfold Drift_track. se_run. by rewrite World_eta.
Qed.

Lemma Drift_track_missing_delta (d : Drift) (w : World) v :
  w_beam w !! "theta" = Some v → w_beam w !! "delta" = None →
  Drift_track d w = (w, Raise AttributeError).
Proof.
  intros Hth Hde. unfold Drift_track. se_run.
  destruct v; se_run; by rewrite World_eta.
Qed.

(** X18.  [Drift.track] computes the entries of both solvers before it looks
    at the solver name.  So whatever the name, recognized or not, and for a
    ring whose [beta_i] is never zero, a beam
    without [theta] or without [delta] makes the call end with
    [AttributeError], and [theta] and [delta] arrays of two different
    lengths, neither of them 1, make it end with [ValueError]; in each case
    nothing is printed and nothing is changed. *)
Theorem Drift_track_evaluates_both_entries (d : Drift) (w : World) :
  (∀ ring beam, beta_i ring beam ≠ 0%R) →
  (w_beam w !! "theta" = None →
   Drift_track d w = (w, Raise AttributeError))
  ∧ (is_Some (w_beam w !! "theta") → w_beam w !! "delta" = None →
     Drift_track d w = (w, Raise AttributeError))
  ∧ (∀ theta delta,
       w_beam w !! "theta" = Some (VArr theta) →
       w_beam w !! "delta" = Some (VArr delta) →
       length theta ≠ length delta →
       length theta ≠ 1 → length delta ≠ 1 →
       Drift_track d w = (w, Raise ValueError)).
Proof.
  intros _. split; [apply Drift_track_missing_theta|]. split.
  - intros [v Hv] Hde. by apply (Drift_track_missing_delta d w v).
  - intros theta delta Hth Hde Hne Ht1 Hd1. unfold Drift_track. se_run.
    rewrite decide_True by (by rewrite length_map). se_run.
    rewrite decide_False
      by (rewrite !length_map, length_zip_with, length_map; lia).
    destruct theta as [|t1 [|t2 theta]], delta as [|d1 [|d2 delta]];
      simpl in *; try done; by rewrite World_eta.
Qed.

(** X19.  Particles on the synchronous momentum do not slip: when every
    [delta] is 0 and the circumference and [beta_i] are not, the ["simple"] solver leaves
    the whole state as it is, and the ["full"] solver only multiplies every
    [theta] by [beta_f / beta_i]. *)
Theorem Drift_track_synchronous (d : Drift) (w : World) theta :
  (∀ ring beam, beta_i ring beam ≠ 0%R) →
  w_beam w !! "theta" = Some (VArr theta) →
  w_beam w !! "delta" = Some (VArr (replicate (length theta) 0%R)) →
  circumference (w_ring w) ≠ 0%R →
  (d_solver d = "simple" → Drift_track d w = (w, Ok tt))
  ∧ (d_solver d = "full" →
     Drift_track d w
     = (mkWorld (w_ring w)
          (<["theta" := VArr (map (λ t, beta_f (w_ring w) (w_beam w)
                                        / beta_i (w_ring w) (w_beam w) * t)%R
                                  theta)]> (w_beam w))
          (w_p_increment w) (w_stdout w), Ok tt)).
Proof.
  intros _ Hth Hde Hcirc.
  pose proof (Drift_track_run d w theta _ Hth Hde) as Hrun.
  rewrite length_replicate in Hrun. specialize (Hrun eq_refl). split.
  - intros Hs.
    rewrite Hrun, decide_False, decide_True by (done || by rewrite Hs).
    rewrite insert_id; [by rewrite World_eta|].
    rewrite Hth. do 2 f_equal.
    apply list_eq. intros j. rewrite lookup_zip_with.
    destruct (theta !! j) as [t|] eqn:Ht; simpl; [|done].
    rewrite lookup_replicate_2 by (apply lookup_lt_Some in Ht; lia). simpl.
    f_equal. unfold Rdiv. ring.
  - intros Hs. rewrite Hrun, decide_True by done. do 4 f_equal.
    apply list_eq. intros j.
    rewrite lookup_zip_with, list_lookup_fmap.
    destruct (theta !! j) as [t|] eqn:Ht; simpl; [|done].
    rewrite lookup_replicate_2 by (apply lookup_lt_Some in Ht; lia). simpl.
    f_equal. replace (1 - eta (w_ring w) (w_beam w) 0 * 0)%R with 1%R by ring.
    unfold Rdiv. rewrite Rinv_1. ring.
Qed.

(** ** The tracker on a beam without [theta] *)

(** X20.  On a beam that has a [dE] array but no [theta], and for a ring
    whose [beta_i] is never zero, [track] ends with
    [AttributeError] after having set [p_increment].  When the tracker has
    at least one kick, the first kick fails and beam and ring are as before;
    when it has none, the acceleration kick has already changed [dE] and
    advanced the counter before the drift fails. *)
Theorem Longitudinal_tracker_track_without_theta (solver : string)
    (w0 w1 : World) (tr : Longitudinal_tracker) (w : World) dE :
  (∀ ring beam, beta_i ring beam ≠ 0%R) →
  Longitudinal_tracker_init solver w0 = (w1, Ok tr) →
  w_beam w !! "dE" = Some (VArr dE) →
  w_beam w !! "theta" = None →
  (kicks tr ≠ [] →
   Longitudinal_tracker_track tr w
   = (mkWorld (w_ring w) (w_beam w)
        (p0_f (w_ring w) - p0_i (w_ring w))%R (w_stdout w),
      Raise AttributeError))
  ∧ (kicks tr = [] →
     Longitudinal_tracker_track tr w
     = (mkWorld (Ring_advance (w_ring w))
          (<["dE" := VArr (map
              (λ x, x + - ((beta_i (w_ring w) (w_beam w)
                            + beta_f (w_ring w) (w_beam w)) / 2)
                        * c * (p0_f (w_ring w) - p0_i (w_ring w)))%R dE)]>
             (w_beam w))
          (p0_f (w_ring w) - p0_i (w_ring w))%R (w_stdout w),
        Raise AttributeError)).
Proof.
  intros _ Hinit HdE Hth.
  apply Longitudinal_tracker_init_inv in Hinit as (_ & Helems & _).
  unfold Longitudinal_tracker_track. rewrite Helems. split.
  - intros Hne. destruct (kicks tr) as [|k ks]; [done|].
    unfold se_bind at 1 2, se_get, set_p_increment, se_modify.
    cbn [map app for_each Element_track]. unfold se_bind at 1.
    unfold Kick_track. se_run. done.
  - intros ->.
    unfold se_bind at 1 2, se_get, set_p_increment, se_modify.
    cbn [map app for_each Element_track]. unfold se_bind at 1.
    erewrite Kick_acceleration_track_run by exact HdE.
    rewrite se_bind_ret_unit.
    rewrite Drift_track_missing_theta
      by (simpl; by rewrite lookup_insert_ne).
    done.
Qed.

(** ** The constructor of the tracker *)

Lemma Kick_init_kind (ring : Ring) (i : nat) :
  (i < length (harmonic ring) ∧ i < length (voltage ring)
   ∧ i < length (phi_offset ring) ∧ ∃ k, Kick_init ring i = Ok k)
  ∨ ((length (harmonic ring) ≤ i ∨ length (voltage ring) ≤ i
      ∨ length (phi_offset ring) ≤ i)
     ∧ Kick_init ring i = Raise IndexError).
Proof.
  unfold Kick_init.
  destruct (harmonic ring !! i) as [h|] eqn:Hh;
    [|right; split; [left; by apply lookup_ge_None|done]].
  destruct (voltage ring !! i) as [v|] eqn:Hv;
    [|right; split; [right; left; by apply lookup_ge_None|done]].
  destruct (phi_offset ring !! i) as [phi|] eqn:Hp;
    [|right; split; [right; right; by apply lookup_ge_None|done]].
  left. apply lookup_lt_Some in Hh, Hv, Hp. eauto.
Qed.

Lemma build_kicks_kind (ring : Ring) (indices : list nat) :
  ((∀ i, i ∈ indices → i < length (voltage ring)
                       ∧ i < length (phi_offset ring))
   ∧ ∃ ks, build_kicks ring indices = Ok ks)
  ∨ ((∃ i, i ∈ indices ∧ (length (harmonic ring) ≤ i
                          ∨ length (voltage ring) ≤ i
                          ∨ length (phi_offset ring) ≤ i))
     ∧ build_kicks ring indices = Raise IndexError).
Proof.
  induction indices as [|j rest IH].
  - left. split; [|by exists []]. intros i Hi. by apply elem_of_nil in Hi.
  - simpl. unfold res_bind.
    destruct (Kick_init_kind ring j) as [(Hh & Hv & Hp & k & Hk)|[Hout Hk]];
      rewrite Hk.
    + destruct IH as [[Hall [ks Hks]]|[(i & Hi & Hout) Hks]]; rewrite Hks.
      * left. split; [|by eexists]. intros i Hi.
        apply elem_of_cons in Hi as [->|Hi]; [done|by apply Hall].
      * right. split; [|done]. exists i. split; [|done].
        apply elem_of_cons. by right.
    + right. split; [|done]. exists j. split; [|done].
      apply elem_of_cons. by left.
Qed.

(** X21.  The constructor of the tracker compares the three parameter lists
    and only warns when their lengths differ.  With equal lengths it prints
    nothing and builds one kick per harmonic; with a harmonic list that is
    the shortest it prints the warning and still builds one kick per
    harmonic; with a voltage or phase list shorter than the harmonic list it
    prints the warning and ends with [IndexError].  It never changes the
    ring or the beam. *)
Theorem Longitudinal_tracker_init_outcomes (solver : string) (w : World) :
  let ring := w_ring w in
  let warning :=
    "Warning: parameter lists for RFSystems do not have the same length!" in
  (length (harmonic ring) = length (voltage ring) →
   length (voltage ring) = length (phi_offset ring) →
   ∃ tr, Longitudinal_tracker_init solver w
         = (mkWorld ring (w_beam w) 0 (w_stdout w), Ok tr)
         ∧ length (kicks tr) = length (harmonic ring))
  ∧ (¬ (length (harmonic ring) = length (voltage ring)
        ∧ length (voltage ring) = length (phi_offset ring)) →
     length (harmonic ring) ≤ length (voltage ring) →
     length (harmonic ring) ≤ length (phi_offset ring) →
     ∃ tr, Longitudinal_tracker_init solver w
           = (mkWorld ring (w_beam w) 0 (w_stdout w ++ [warning]), Ok tr)
           ∧ length (kicks tr) = length (harmonic ring))
  ∧ (length (voltage ring) < length (harmonic ring)
     ∨ length (phi_offset ring) < length (harmonic ring) →
     Longitudinal_tracker_init solver w
     = (mkWorld ring (w_beam w) (w_p_increment w) (w_stdout w ++ [warning]),
        Raise IndexError)).
Proof.
  intros ring warning. subst ring warning.
  assert (Hok : length (harmonic (w_ring w)) ≤ length (voltage (w_ring w)) →
                length (harmonic (w_ring w)) ≤ length (phi_offset (w_ring w)) →
                ∃ ks, build_kicks (w_ring w)
                        (seq 0 (length (harmonic (w_ring w)))) = Ok ks
                      ∧ length ks = length (harmonic (w_ring w))).
  { intros Hv Hp.
    destruct (build_kicks_kind (w_ring w)
                (seq 0 (length (harmonic (w_ring w)))))
      as [[_ [ks Hks]]|[(i & Hi & Hout) _]].
    - exists ks. split; [done|].
      apply build_kicks_inv in Hks as [Hl _]. by rewrite length_seq in Hl.
    - apply elem_of_seq in Hi. lia. }
  split; [|split].
  - intros H1 H2. destruct Hok as (ks & Hks & Hl); [lia..|].
    eexists. unfold Longitudinal_tracker_init. se_run.
    rewrite decide_True by done. se_run. rewrite Hks. se_run. done.
  - intros Hne Hv Hp. destruct (Hok Hv Hp) as (ks & Hks & Hl).
    eexists. unfold Longitudinal_tracker_init. se_run.
    rewrite decide_False by done. se_run. rewrite Hks. se_run. done.
  - intros Hshort. unfold Longitudinal_tracker_init. se_run.
    rewrite decide_False by lia. se_run.
    destruct (build_kicks_kind (w_ring w)
                (seq 0 (length (harmonic (w_ring w)))))
      as [[Hall _]|[_ Hks]].
    + exfalso. destruct Hshort as [Hs|Hs].
      * destruct (Hall (length (voltage (w_ring w)))) as [Hlt _];
          [apply elem_of_seq; lia | lia].
      * destruct (Hall (length (phi_offset (w_ring w)))) as [_ Hlt];
          [apply elem_of_seq; lia | lia].
    + rewrite Hks. se_run. done.
Qed.

(** ** Further properties of the linear map *)

(** X22.  A whole number of synchrotron periods per turn is the identity:
    with [Qs] a positive integer and [eta], the beam's [gamma] and [beta]
    and the circumference different from zero, [LinearMap.track] ends without an
    exception and leaves [z], [dp] and everything else exactly as they
    were. *)
Theorem LinearMap_track_integer_tune (self : LinearMap) (w : World)
    g bt zs dps (k : nat) :
  g ≠ 0%R →
  w_beam w !! "gamma" = Some (VFloat g) →
  w_beam w !! "beta" = Some (VFloat bt) →
  w_beam w !! "z" = Some (VArr zs) →
  w_beam w !! "dp" = Some (VArr dps) →
  length zs = length dps →
  lm_Qs self = INR k → 0 < k →
  (lm_alpha self - / (g ^ 2))%R ≠ 0%R →
  bt ≠ 0%R → lm_circumference self ≠ 0%R →
  LinearMap_track self w = (w, Ok tt).
Proof.
  intros Hg0 Hg Hb Hz Hdp Hlen HQ Hk Heta Hbt Hcirc.
  assert (HQs : lm_Qs self ≠ 0%R).
  { rewrite HQ. apply not_0_INR. lia. }
  pose proof (LinearMap_omega_s_neq_0 self bt HQs Hbt Hcirc) as Hom.
  rewrite (LinearMap_track_run self w g bt zs dps) by done.
  assert (Hcos : cos (2 * PI * lm_Qs self) = 1%R).
  { replace (2 * PI * lm_Qs self)%R with (0 + 2 * INR k * PI)%R
      by (rewrite HQ; ring).
    rewrite cos_period. apply cos_0. }
  assert (Hsin : sin (2 * PI * lm_Qs self) = 0%R).
  { replace (2 * PI * lm_Qs self)%R with (0 + 2 * INR k * PI)%R
      by (rewrite HQ; ring).
    rewrite sin_period. apply sin_0. }
  rewrite Hcos, Hsin.
  assert (Hzs : zip_with
            (λ z0 dp0 : R,
               z0 * 1 - (lm_alpha self - / g ^ 2) * c
                        / (lm_Qs self
                           * (2 * PI * bt * c / lm_circumference self))
                        * dp0 * 0)%R zs dps = zs).
  { apply list_eq. intros j. rewrite lookup_zip_with.
    destruct (zs !! j) as [z0|] eqn:Hz0; simpl; [|done].
    destruct (dps !! j) as [dp0|] eqn:Hdp0; simpl.
    - f_equal. ring.
    - apply lookup_lt_Some in Hz0. apply lookup_ge_None in Hdp0. lia. }
  assert (Hdps : zip_with
            (λ dp0 z0 : R,
               dp0 * 1 + lm_Qs self
                         * (2 * PI * bt * c / lm_circumference self)
                         / (lm_alpha self - / g ^ 2) / c * z0 * 0)%R
            dps zs = dps).
  { apply list_eq. intros j. rewrite lookup_zip_with.
    destruct (dps !! j) as [dp0|] eqn:Hdp0; simpl; [|done].
    destruct (zs !! j) as [z0|] eqn:Hz0; simpl.
    - f_equal. ring.
    - apply lookup_lt_Some in Hdp0. apply lookup_ge_None in Hz0. lia. }
  rewrite Hzs, Hdps.
  rewrite (insert_id (w_beam w) "z") by done.
  rewrite (insert_id (w_beam w) "dp") by done.
  by rewrite World_eta.
Qed.

Lemma rotation_area (k a C S z1 dp1 z2 dp2 : R) :
  (a * k = 1 → C ^ 2 + S ^ 2 = 1 →
   (z1 * C - a * dp1 * S) * (dp2 * C + k * z2 * S)
   - (z2 * C - a * dp2 * S) * (dp1 * C + k * z1 * S)
   = z1 * dp2 - z2 * dp1)%R.
Proof.
  intros Hak Hcs.
  replace ((z1 * C - a * dp1 * S) * (dp2 * C + k * z2 * S)
           - (z2 * C - a * dp2 * S) * (dp1 * C + k * z1 * S))%R
    with ((z1 * dp2 - z2 * dp1) * (C ^ 2 + (a * k) * S ^ 2))%R by ring.
  rewrite Hak. replace (C ^ 2 + 1 * S ^ 2)%R with (C ^ 2 + S ^ 2)%R by ring.
  rewrite Hcs. ring.
Qed.

(** X23.  The linear map preserves phase-space area: when [Qs], [eta], the
    beam's [gamma] and [beta] and the circumference are different from zero, the
    quantity [z_i * dp_j - z_j * dp_i] of any two particles is the same
    after [LinearMap.track] as before. *)
Theorem LinearMap_track_preserves_area (self : LinearMap) (w : World)
    g bt zs dps :
  g ≠ 0%R →
  w_beam w !! "gamma" = Some (VFloat g) →
  w_beam w !! "beta" = Some (VFloat bt) →
  w_beam w !! "z" = Some (VArr zs) →
  w_beam w !! "dp" = Some (VArr dps) →
  length zs = length dps →
  lm_Qs self ≠ 0%R → (lm_alpha self - / (g ^ 2))%R ≠ 0%R →
  bt ≠ 0%R → lm_circumference self ≠ 0%R →
  ∃ w' zs' dps',
    LinearMap_track self w = (w', Ok tt)
    ∧ w_beam w' !! "z" = Some (VArr zs')
    ∧ w_beam w' !! "dp" = Some (VArr dps')
    ∧ ∀ i j zi dpi zj dpj zi' dpi' zj' dpj',
        zs !! i = Some zi → dps !! i = Some dpi →
        zs !! j = Some zj → dps !! j = Some dpj →
        zs' !! i = Some zi' → dps' !! i = Some dpi' →
        zs' !! j = Some zj' → dps' !! j = Some dpj' →
        (zi' * dpj' - zj' * dpi' = zi * dpj - zj * dpi)%R.
Proof.
  intros Hg0 Hg Hb Hz Hdp Hlen HQs Heta Hbt Hcirc.
  pose proof (LinearMap_omega_s_neq_0 self bt HQs Hbt Hcirc) as Hom.
  eexists _, _, _.
  split; [by apply (LinearMap_track_run self w g bt zs dps)|]. cbn [w_beam].
  split; [rewrite lookup_insert_ne by done; apply lookup_insert_eq|].
  split; [apply lookup_insert_eq|].
  intros i j zi dpi zj dpj zi' dpi' zj' dpj' Hzi Hdpi Hzj Hdpj Hzi' Hdpi'
         Hzj' Hdpj'.
  apply lookup_zip_with_Some in Hzi' as (? & ? & -> & H1 & H2).
  rewrite Hzi in H1. rewrite Hdpi in H2. injection H1 as <-. injection H2 as <-.
  apply lookup_zip_with_Some in Hzj' as (? & ? & -> & H1 & H2).
  rewrite Hzj in H1. rewrite Hdpj in H2. injection H1 as <-. injection H2 as <-.
  apply lookup_zip_with_Some in Hdpi' as (? & ? & -> & H1 & H2).
  rewrite Hdpi in H1. rewrite Hzi in H2. injection H1 as <-. injection H2 as <-.
  apply lookup_zip_with_Some in Hdpj' as (? & ? & -> & H1 & H2).
  rewrite Hdpj in H1. rewrite Hzj in H2. injection H1 as <-. injection H2 as <-.
  pose proof c_neq_0 as Hc.
  set (e := (lm_alpha self - / (g ^ 2))%R) in *.
  set (om := (lm_Qs self * (2 * PI * bt * c / lm_circumference self))%R) in *.
  replace (om / e / c)%R with (om / (e * c))%R by (by field).
  apply rotation_area.
  - by field.
  - pose proof (sin2_cos2 (2 * PI * lm_Qs self)) as Hsc.
    unfold Rsqr in Hsc. lra.
Qed.

(** X24.  The sign of [Qs] does not matter: two linear maps that differ only
    in the sign of [Qs] do the same to a beam whose [gamma] and [beta] are
    numbers and whose [z] and [dp] are arrays of one length. *)
Theorem LinearMap_track_even_in_Qs (circ alpha Qs : R) (w : World)
    g bt zs dps :
  w_beam w !! "gamma" = Some (VFloat g) →
  w_beam w !! "beta" = Some (VFloat bt) →
  w_beam w !! "z" = Some (VArr zs) →
  w_beam w !! "dp" = Some (VArr dps) →
  length zs = length dps →
  LinearMap_track (LinearMap_init circ alpha (- Qs)) w
  = LinearMap_track (LinearMap_init circ alpha Qs) w.
Proof.
  intros Hg Hb Hz Hdp Hlen. unfold LinearMap_init.
  assert (Hz1 : ∀ zs1 dps1,
            zip_with
              (λ z0 dp0 : R,
                 z0 * cos (2 * PI * - Qs)
                 - (alpha - / g ^ 2) * c / (- Qs * (2 * PI * bt * c / circ))
                   * dp0 * sin (2 * PI * - Qs))%R zs1 dps1
            = zip_with
                (λ z0 dp0 : R,
                   z0 * cos (2 * PI * Qs)
                   - (alpha - / g ^ 2) * c / (Qs * (2 * PI * bt * c / circ))
                     * dp0 * sin (2 * PI * Qs))%R zs1 dps1).
  { intros zs1 dps1. apply list_eq. intros j. rewrite !lookup_zip_with.
    destruct (zs1 !! j), (dps1 !! j); simpl; try done. f_equal.
    replace (2 * PI * - Qs)%R with (- (2 * PI * Qs))%R by ring.
    rewrite cos_neg, sin_neg.
    replace (- Qs * (2 * PI * bt * c / circ))%R
      with (- (Qs * (2 * PI * bt * c / circ)))%R by ring.
    unfold Rdiv. rewrite Rinv_opp. ring. }
  assert (Hdp1 : ∀ dps1 zs1,
            zip_with
              (λ dp0 z0 : R,
                 dp0 * cos (2 * PI * - Qs)
                 + - Qs * (2 * PI * bt * c / circ) / (alpha - / g ^ 2) / c
                   * z0 * sin (2 * PI * - Qs))%R dps1 zs1
            = zip_with
                (λ dp0 z0 : R,
                   dp0 * cos (2 * PI * Qs)
                   + Qs * (2 * PI * bt * c / circ) / (alpha - / g ^ 2) / c
                     * z0 * sin (2 * PI * Qs))%R dps1 zs1).
  { intros dps1 zs1. apply list_eq. intros j. rewrite !lookup_zip_with.
    destruct (dps1 !! j), (zs1 !! j); simpl; try done. f_equal.
    replace (2 * PI * - Qs)%R with (- (2 * PI * Qs))%R by ring.
    rewrite cos_neg, sin_neg. unfold Rdiv. ring. }
  destruct (decide (g = 0%R)) as [Hg0|Hg0].
  { subst g. by rewrite !LinearMap_track_zero_gamma. }
  destruct (decide (circ = 0%R)) as [Hc0|Hc0].
  { by rewrite !(LinearMap_track_zero_circumference _ w g bt). }
  destruct (decide ((Qs * (2 * PI * bt * c / circ))%R = 0%R)) as [Hom|Hom].
  { rewrite !(LinearMap_track_zero_omega_s _ w g bt zs dps); try done.
    cbn [lm_Qs lm_circumference].
    replace (- Qs * (2 * PI * bt * c / circ))%R
      with (- (Qs * (2 * PI * bt * c / circ)))%R by ring.
    rewrite Hom. ring. }
  assert (Hom' : (- Qs * (2 * PI * bt * c / circ))%R ≠ 0%R).
  { replace (- Qs * (2 * PI * bt * c / circ))%R
      with (- (Qs * (2 * PI * bt * c / circ)))%R by ring.
    by apply Ropp_neq_0_compat. }
  destruct (decide ((alpha - / g ^ 2)%R = 0%R)) as [Heta|Heta].
  { rewrite !(LinearMap_track_zero_eta _ w g bt zs dps) by done.
    cbn [lm_Qs lm_alpha lm_circumference]. by rewrite Hz1. }
  rewrite !(LinearMap_track_run _ w g bt zs dps) by done.
  cbn [lm_Qs lm_alpha lm_circumference]. by rewrite Hz1, Hdp1.
Qed.

(** X25.  [z] and [dp] arrays of two different lengths, neither of them 1,
    make [LinearMap.track] end with [ValueError] before it has assigned
    anything (for [Qs], the circumference and the beam's [gamma] and [beta]
    different from zero, so that no quotient fails first). *)
Theorem LinearMap_track_shape_error (self : LinearMap) (w : World)
    g bt zs dps :
  g ≠ 0%R → bt ≠ 0%R → lm_Qs self ≠ 0%R → lm_circumference self ≠ 0%R →
  w_beam w !! "gamma" = Some (VFloat g) →
  w_beam w !! "beta" = Some (VFloat bt) →
  w_beam w !! "z" = Some (VArr zs) →
  w_beam w !! "dp" = Some (VArr dps) →
  length zs ≠ length dps → length zs ≠ 1 → length dps ≠ 1 →
  LinearMap_track self w = (w, Raise ValueError).
Proof.
  intros Hg0 Hbt HQs Hcirc Hg Hb Hz Hdp Hne Hz1 Hd1.
  pose proof (LinearMap_omega_s_neq_0 self bt HQs Hbt Hcirc) as Hom.
  unfold LinearMap_track. se_run.
  rewrite decide_False by done. se_run.
  rewrite decide_False by done. se_run.
  rewrite decide_False by done. se_run.
  rewrite decide_False by (by rewrite !length_map).
  destruct zs as [|z1 [|z2 zs]], dps as [|d1 [|d2 dps]];
    simpl in *; try done; by rewrite World_eta.
Qed.
End Tracker.

(** ** The statements on concrete inputs *)

Lemma example_beam_is_Beam :
  is_Beam example_beam [-1; 0; 1]%R [-2; 0; 2]%R [1; 2; 3]%Z.
Proof. repeat split. Qed.

Lemma losses_cut_marks_outside_witness :
  ∃ ids', losses_longitudinal_cut 0 1 example_beam
          = (<["id" := VIntArr ids']> example_beam, Ok tt)
          ∧ cut_result 0 1 [-1; 0; 1]%R [1; 2; 3]%Z ids'.
Proof.
  apply (losses_cut_marks_outside example_beam [-1; 0; 1]%R [-2; 0; 2]%R
           [1; 2; 3]%Z 0 1 0 1).
  repeat split.
Defined.

Lemma statistics_over_alive_witness :
  ∃ b' : obj,
    statistics example_beam = (b', Ok tt)
    ∧ b' !! "mean_dt" = Some (VFloat (mean_alive [1; 2; 3]%Z [-1; 0; 1]%R))
    ∧ b' !! "n_macroparticles_lost" = Some (VInt 0).
Proof.
  destruct (statistics_over_alive example_beam [-1; 0; 1]%R [-2; 0; 2]%R
              [1; 2; 3]%Z) as (Hrun & _ & _).
  - repeat split.
  - exists 0, 1%Z. split; [reflexivity | lia].
  - eexists. split; [exact Hrun|]. split; reflexivity.
Defined.

Lemma Longitudinal_tracker_track_turn_witness :
  ∃ w' r,
    Longitudinal_tracker_track example_e example_p0_i example_p0_f
      example_beta_i example_beta_f example_eta example_eta0
      (mkTracker "full"
         [mkKick 4620 6000000 0; mkKick 18480 600000 PI]
         [EKick (mkKick 4620 6000000 0); EKick (mkKick 18480 600000 PI);
          EKick_acceleration; EDrift (mkDrift "full")])
      example_world = (w', r)
    ∧ w_p_increment w' = (example_p0_f example_ring - example_p0_i example_ring)%R
    ∧ counter (w_ring w') = 1%Z
    ∧ r = Ok tt.
Proof.
  destruct (Longitudinal_tracker_track_turn example_e example_p0_i
              example_p0_f example_beta_i example_beta_f example_eta
              example_eta0 "full" example_world example_world
              (mkTracker "full"
                 [mkKick 4620 6000000 0; mkKick 18480 600000 PI]
                 [EKick (mkKick 4620 6000000 0);
                  EKick (mkKick 18480 600000 PI);
                  EKick_acceleration; EDrift (mkDrift "full")])
              example_world [0; 1]%R [0; 0.5]%R [0; 0.001]%R)
    as (_ & _ & _ & _ & w' & r & Hrun & Hp & Hc & Hr);
    first [reflexivity | intros; unfold example_beta_i; lra | idtac].
  exists w', r. split; [exact Hrun|]. split; [exact Hp|]. split; [exact Hc|].
  apply Hr. by left.
Defined.

(** C3, as the specification words it: every beam, and the counter one more
    after every call.  The beam the constructor returns has no [theta]: the
    first kick of the tracker ends the call with [AttributeError], and the
    counter of the ring is what it was. *)
Lemma Longitudinal_tracker_track_counter_not_advanced :
  ∃ (b : obj) (w' : World),
    Beam_new example_GeneralParameters 2 (PyFloat 100000000000) = Ok b
    ∧ Longitudinal_tracker_init "full" (mkWorld example_ring b 0 [])
      = (mkWorld example_ring b 0 [], Ok (example_tracker "full"))
    ∧ Longitudinal_tracker_track example_e example_p0_i example_p0_f
        example_beta_i example_beta_f example_eta example_eta0
        (example_tracker "full") (mkWorld example_ring b 0 [])
      = (w', Raise AttributeError)
    ∧ w_beam w' = b
    ∧ counter (w_ring w') = counter example_ring.
Proof.
  eexists _, _. split; [reflexivity|]. split; [reflexivity|].
  split; [reflexivity|]. split; reflexivity.
Qed.



Lemma Drift_track_formulas_witness :
  ∃ w' r,
    Drift_track example_beta_i example_beta_f example_eta example_eta0
      (mkDrift "simple") example_world = (w', r)
    ∧ w_beam w' !! "dE" = Some (VArr [0; 1]%R)
    ∧ w_ring w' = example_ring.
Proof.
  destruct (Drift_track_formulas example_beta_i example_beta_f example_eta
              example_eta0 (mkDrift "simple") example_world
              [0; 0.5]%R [0; 0.001]%R)
    as (_ & _ & w' & r & Hrun & Hframe & Hring & _); try reflexivity.
  exists w', r. split; [exact Hrun|]. split; [|exact Hring].
  rewrite Hframe by done. reflexivity.
Defined.

Lemma Drift_unrecognized_solver_witness :
  Drift_track example_beta_i example_beta_f example_eta example_eta0
    (Drift_init "exact") example_world
  = (mkWorld example_ring example_tracked_beam 0
       ["ERROR: Choice of longitudinal solver not recognized! Aborting..."],
     Raise SystemExit).
Proof.
  apply (Drift_unrecognized_solver example_beta_i example_beta_f example_eta
           example_eta0 "exact" example_world [0; 0.5]%R [0; 0.001]%R);
    first [reflexivity | done | unfold example_beta_i; lra].
Defined.

(** C6, as the specification words it: every call of [track] with an
    unrecognized solver reports the error and terminates the process.  On
    the beam the constructor returns, which has no [theta], the entries of
    the two solvers cannot be computed: the call ends with [AttributeError]
    before the solver is looked up, and nothing is printed. *)
Lemma Drift_track_unrecognized_solver_no_exit :
  ∃ b : obj,
    Beam_new example_GeneralParameters 2 (PyFloat 100000000000) = Ok b
    ∧ d_solver (Drift_init "exact") = "exact"
    ∧ Drift_track example_beta_i example_beta_f example_eta example_eta0
        (Drift_init "exact") (mkWorld example_ring b 0 [])
      = (mkWorld example_ring b 0 [], Raise AttributeError).
Proof.
  eexists. split; [reflexivity|]. split; reflexivity.
Qed.

Lemma Kick_acceleration_track_ramp_witness :
  ∃ w',
    Kick_acceleration_track example_beta_i example_beta_f example_world
    = (w', Ok tt)
    ∧ counter (w_ring w') = 1%Z.
Proof.
  destruct (Kick_acceleration_track_ramp example_beta_i example_beta_f
              example_world [0; 1]%R)
    as (w' & Hrun & _ & Hc & _); [reflexivity|].
  exists w'. split; [exact Hrun | exact Hc].
Defined.

Lemma Kick_track_adds_rf_kick_witness :
  ∃ k w',
    Kick_init example_ring 1 = Ok k
    ∧ Kick_track example_e k example_world = (w', Ok tt)
    ∧ w_beam w' !! "theta" = Some (VArr [0; 0.5]%R).
Proof.
  destruct (Kick_track_adds_rf_kick example_e example_ring 1
              18480 600000 PI example_world [0; 1]%R [0; 0.5]%R)
    as (k & w' & Hk & Hrun & _ & Hframe & _); try reflexivity.
  exists k, w'. split; [exact Hk|]. split; [exact Hrun|].
  rewrite Hframe by done. reflexivity.
Defined.



(** ** The further statements on concrete inputs *)

Lemma losses_cut_bounds_swap_witness :
  losses_longitudinal_cut 0 1 example_beam
  = losses_longitudinal_cut 1 0 example_beam.
Proof.
  apply (losses_cut_bounds_swap example_beam [-1; 0; 1]%R [-2; 0; 2]%R
           [1; 2; 3]%Z 0 1).
  repeat split.
Defined.

Lemma losses_cut_idempotent_commute_witness :
  (losses_longitudinal_cut 0 1 ;; losses_longitudinal_cut 0 1)%se example_beam
  = losses_longitudinal_cut 0 1 example_beam.
Proof.
  apply (losses_cut_idempotent_commute example_beam [-1; 0; 1]%R
           [-2; 0; 2]%R [1; 2; 3]%Z 0 1 0 1).
  repeat split.
Defined.

Lemma losses_cut_reads_id_on_demand_witness :
  losses_longitudinal_cut 0 1 (<["dt" := VArr [0%R]]> ∅)
  = (<["dt" := VArr [0%R]]> ∅, Ok tt).
Proof.
  apply (losses_cut_reads_id_on_demand (<["dt" := VArr [0%R]]> ∅) [0%R] 0 1).
  - reflexivity.
  - intros [|i] x Hx; simpl in Hx; [|done]. injection Hx as <-. lra.
Defined.

Lemma losses_cut_index_error_witness :
  losses_longitudinal_cut 0 1
    (<["id" := VIntArr [1%Z]]> (<["dt" := VArr [0; 5]%R]> ∅))
  = (<["id" := VIntArr [1%Z]]> (<["dt" := VArr [0; 5]%R]> ∅),
     Raise IndexError).
Proof.
  apply (losses_cut_index_error _ [0; 5]%R [1%Z] 0 1 1 5).
  - reflexivity.
  - reflexivity.
  - reflexivity.
  - lra.
  - simpl. lia.
Defined.

Lemma losses_separatrix_marks_outside_witness :
  ∃ ids',
    losses_separatrix unit (λ _ _ _ _ _, [true; false; true])
      example_GeneralParameters tt example_beam example_beam
    = (<["id" := VIntArr ids']> example_beam, Ok tt)
    ∧ ids' !! 1 = Some 0%Z.
Proof.
  destruct (losses_separatrix_marks_outside unit
              (λ _ _ _ _ _, [true; false; true]) example_GeneralParameters tt
              example_beam example_beam [-1; 0; 1]%R [-2; 0; 2]%R
              [1; 2; 3]%Z) as (ids' & Hrun & _ & Hmark).
  - repeat split.
  - reflexivity.
  - exists ids'. split; [exact Hrun|].
    apply (Hmark 1 2%Z false); reflexivity.
Defined.

Lemma losses_never_revive_witness :
  ∃ ids',
    losses_energy_cut 0 1 example_beam
    = (<["id" := VIntArr ids']> example_beam, Ok tt)
    ∧ count_alive ids' ≤ 3.
Proof.
  destruct (losses_never_revive unit (λ _ _ _ _ _, [true; false; true])
              example_GeneralParameters tt example_beam example_beam
              [-1; 0; 1]%R [-2; 0; 2]%R [1; 2; 3]%Z 0 1
              (losses_energy_cut 0 1)) as (ids' & Hrun & _ & _ & Hal).
  - repeat split.
  - reflexivity.
  - right. by left.
  - exists ids'. split; [exact Hrun | exact Hal].
Defined.

Lemma statistics_total_idempotent_witness :
  ∃ b' : obj,
    statistics example_beam = (b', Ok tt)
    ∧ (statistics ;; statistics)%se example_beam = (b', Ok tt).
Proof.
  destruct (statistics_total_idempotent example_beam [-1; 0; 1]%R
              [-2; 0; 2]%R [1; 2; 3]%Z) as (b' & Hrun & _ & _ & Htwice).
  - repeat split.
  - exists b'. split; [exact Hrun | exact Htwice].
Defined.

Lemma statistics_index_error_witness :
  statistics (<["dt" := VArr [0%R]]> (<["id" := VIntArr [1; 2]%Z]> ∅))
  = (<["dt" := VArr [0%R]]> (<["id" := VIntArr [1; 2]%Z]> ∅),
     Raise IndexError).
Proof.
  apply (statistics_index_error _ [0%R] [1; 2]%Z 1 2%Z).
  - reflexivity.
  - reflexivity.
  - reflexivity.
  - lia.
  - simpl. lia.
Defined.

Lemma n_macroparticles_alive_stale_until_statistics_witness :
  ∃ b1 : obj,
    (losses_longitudinal_cut 0 1 ;; n_macroparticles_alive)%se
      (<["n_macroparticles_lost" := VInt 0]>
         (<["n_macroparticles" := VInt 3]> example_beam))
    = (b1, Ok (VInt 3)).
Proof.
  destruct (n_macroparticles_alive_stale_until_statistics
              (<["n_macroparticles_lost" := VInt 0]>
                 (<["n_macroparticles" := VInt 3]> example_beam))
              [-1; 0; 1]%R [-2; 0; 2]%R [1; 2; 3]%Z 0 0 1)
    as (b1 & b2 & _ & Hstale & _).
  - repeat split.
  - reflexivity.
  - reflexivity.
  - exists b1. exact Hstale.
Defined.

Lemma Beam_new_all_alive_witness :
  ∃ b : obj,
    Beam_new example_GeneralParameters 2 (PyFloat 100000000000) = Ok b
    ∧ n_macroparticles_alive b = (b, Ok (VInt 2)).
Proof.
  destruct (Beam_new_all_alive example_GeneralParameters 2
              (PyFloat 100000000000) 1 7 6567904322 6500000000)
    as (b & Hnew & _ & _ & _ & _ & _ & Hal);
    [reflexivity | reflexivity | reflexivity | reflexivity | lia |].
  exists b. split; [exact Hnew | exact Hal].
Defined.

Lemma Beam_new_errors_witness :
  Beam_new example_GeneralParameters (-1) (PyFloat 100000000000)
  = Raise ValueError.
Proof.
  apply (Beam_new_errors example_GeneralParameters (-1)
           (PyFloat 100000000000)).
  - by exists 1%R, 7%R, 6567904322%R, 6500000000%R.
  - lia.
Defined.

Lemma statistics_of_new_Beam_witness :
  ∃ b b' : obj,
    Beam_new example_GeneralParameters 2 (PyFloat 100000000000) = Ok b
    ∧ statistics b = (b', Ok tt)
    ∧ b' !! "epsn_rms_l" = Some (VFloat 0).
Proof.
  eexists.
  destruct (statistics_of_new_Beam example_GeneralParameters 2
              (PyFloat 100000000000) _ eq_refl)
    as (b' & Hrun & _ & _ & _ & _ & Heps & _).
  exists b'. split; [reflexivity|]. split; [exact Hrun | exact Heps].
Defined.

Lemma kicks_add_up_witness :
  for_each (Kick_track example_e)
    [mkKick 4620 6000000 0; mkKick 18480 600000 PI] example_world
  = for_each (Kick_track example_e)
      [mkKick 18480 600000 PI; mkKick 4620 6000000 0] example_world.
Proof.
  apply (kicks_add_up example_e
           [mkKick 4620 6000000 0; mkKick 18480 600000 PI]
           [mkKick 18480 600000 PI; mkKick 4620 6000000 0]
           example_world [0; 1]%R [0; 0.5]%R);
    first [reflexivity | apply perm_swap].
Defined.

Lemma Kick_track_shapes_witness :
  Kick_track example_e (mkKick 4620 6000000 0)
    (mkWorld example_ring
       (<["theta" := VArr [0; 0; 0]%R]> (<["dE" := VArr [0; 1]%R]> ∅)) 0 [])
  = (mkWorld example_ring
       (<["theta" := VArr [0; 0; 0]%R]> (<["dE" := VArr [0; 1]%R]> ∅)) 0 [],
     Raise ValueError).
Proof.
  apply (Kick_track_shapes example_e (mkKick 4620 6000000 0) example_ring
           (<["theta" := VArr [0; 0; 0]%R]> (<["dE" := VArr [0; 1]%R]> ∅))
           0 [] [0; 1]%R [0; 0; 0]%R);
    first [reflexivity | simpl; lia].
Defined.

Lemma Longitudinal_tracker_track_closed_form_witness :
  ∃ w',
    Longitudinal_tracker_track example_e example_p0_i example_p0_f
      example_beta_i example_beta_f example_eta example_eta0
      (example_tracker "full") example_world = (w', Ok tt)
    ∧ w_beam w' !! "dE"
      = Some (VArr (turn_energy example_e example_p0_i example_p0_f
                      example_beta_i example_beta_f example_ring
                      example_tracked_beam (kicks (example_tracker "full"))
                      [0; 1]%R [0; 0.5]%R)).
Proof.
  destruct (Longitudinal_tracker_track_closed_form example_e example_p0_i
              example_p0_f example_beta_i example_beta_f example_eta
              example_eta0 "full" example_world example_world
              (example_tracker "full") example_world
              [0; 1]%R [0; 0.5]%R [0; 0.001]%R) as [Hfull _];
    first [reflexivity | intros; unfold example_beta_i; lra | idtac].
  eexists. split; [apply Hfull; reflexivity|]. reflexivity.
Defined.

Lemma Longitudinal_tracker_track_exit_state_witness :
  ∃ w',
    Longitudinal_tracker_track example_e example_p0_i example_p0_f
      example_beta_i example_beta_f example_eta example_eta0
      (example_tracker "exact") example_world = (w', Raise SystemExit)
    ∧ counter (w_ring w') = 1%Z
    ∧ w_beam w' !! "theta" = Some (VArr [0; 0.5]%R).
Proof.
  eexists. split.
  - apply (Longitudinal_tracker_track_exit_state example_e example_p0_i
             example_p0_f example_beta_i example_beta_f example_eta
             example_eta0 "exact" example_world example_world
             (example_tracker "exact") example_world
             [0; 1]%R [0; 0.5]%R [0; 0.001]%R);
      first [reflexivity | done | intros; unfold example_beta_i; lra].
  - split; reflexivity.
Defined.

Lemma Longitudinal_tracker_track_n_turns_witness :
  ∃ w',
    for_each
      (λ _ : unit,
         Longitudinal_tracker_track example_e example_p0_i example_p0_f
           example_beta_i example_beta_f example_eta example_eta0
           (example_tracker "simple"))
      (replicate 3 tt) example_world = (w', Ok tt)
    ∧ counter (w_ring w') = 3%Z.
Proof.
  destruct (Longitudinal_tracker_track_n_turns example_e example_p0_i
              example_p0_f example_beta_i example_beta_f example_eta
              example_eta0 "simple" example_world example_world
              (example_tracker "simple") 3 example_world
              [0; 1]%R [0; 0.5]%R [0; 0.001]%R)
    as (w' & dE' & theta' & Hrun & Hc & _);
    first [reflexivity | by right | intros; unfold example_beta_i; lra
          | idtac].
  exists w'. split; [exact Hrun | exact Hc].
Defined.

Lemma Drift_track_evaluates_both_entries_witness :
  Drift_track example_beta_i example_beta_f example_eta example_eta0
    (mkDrift "exact") (mkWorld example_ring example_beam 0 [])
  = (mkWorld example_ring example_beam 0 [], Raise AttributeError).
Proof.
  apply (proj1 (Drift_track_evaluates_both_entries example_beta_i
                  example_beta_f example_eta example_eta0 (mkDrift "exact")
                  (mkWorld example_ring example_beam 0 [])
                  ltac:(intros; unfold example_beta_i; lra))).
  reflexivity.
Defined.

Lemma Drift_track_synchronous_witness :
  Drift_track example_beta_i example_beta_f example_eta example_eta0
    (mkDrift "simple") (mkWorld example_ring synchronous_beam 0 [])
  = (mkWorld example_ring synchronous_beam 0 [], Ok tt).
Proof.
  apply (Drift_track_synchronous example_beta_i example_beta_f example_eta
           example_eta0 (mkDrift "simple")
           (mkWorld example_ring synchronous_beam 0 []) [0; 0.5]%R).
  - intros. unfold example_beta_i. lra.
  - reflexivity.
  - reflexivity.
  - simpl. lra.
  - reflexivity.
Defined.

Lemma Longitudinal_tracker_track_without_theta_witness :
  Longitudinal_tracker_track example_e example_p0_i example_p0_f
    example_beta_i example_beta_f example_eta example_eta0
    (example_tracker "full") (mkWorld example_ring example_beam 0 [])
  = (mkWorld example_ring example_beam
       (example_p0_f example_ring - example_p0_i example_ring)%R [],
     Raise AttributeError).
Proof.
  apply (Longitudinal_tracker_track_without_theta example_e example_p0_i
           example_p0_f example_beta_i example_beta_f example_eta
           example_eta0 "full" example_world example_world
           (example_tracker "full") (mkWorld example_ring example_beam 0 [])
           [-2; 0; 2]%R);
    first [reflexivity | done | intros; unfold example_beta_i; lra].
Defined.

Lemma Longitudinal_tracker_init_outcomes_witness :
  Longitudinal_tracker_init "full"
    (mkWorld (mkRing [4620; 18480]%R [6000000%R] [0; PI]%R 6911 6911
                [0.0005]%R 0) example_tracked_beam 0 [])
  = (mkWorld (mkRing [4620; 18480]%R [6000000%R] [0; PI]%R 6911 6911
                [0.0005]%R 0) example_tracked_beam 0
       ["Warning: parameter lists for RFSystems do not have the same length!"],
     Raise IndexError).
Proof.
  apply (Longitudinal_tracker_init_outcomes "full"
           (mkWorld (mkRing [4620; 18480]%R [6000000%R] [0; PI]%R 6911 6911
                       [0.0005]%R 0) example_tracked_beam 0 [])).
  left. simpl. lia.
Defined.

Lemma LinearMap_track_integer_tune_witness :
  LinearMap_track (mkLinearMap 6911 0.0005 1)
    (mkWorld example_ring moving_beam 0 [])
  = (mkWorld example_ring moving_beam 0 [], Ok tt).
Proof.
  apply (LinearMap_track_integer_tune (mkLinearMap 6911 0.0005 1)
           (mkWorld example_ring moving_beam 0 []) 7 1 [0%R] [1%R] 1);
    first [reflexivity | lia | lra | simpl; lra].
Defined.

Lemma LinearMap_track_preserves_area_witness :
  ∃ w' zs' dps',
    LinearMap_track (mkLinearMap 6911 0.0005 0.005)
      (mkWorld example_ring moving_beam 0 []) = (w', Ok tt)
    ∧ w_beam w' !! "z" = Some (VArr zs')
    ∧ w_beam w' !! "dp" = Some (VArr dps').
Proof.
  destruct (LinearMap_track_preserves_area (mkLinearMap 6911 0.0005 0.005)
              (mkWorld example_ring moving_beam 0 []) 7 1 [0%R] [1%R])
    as (w' & zs' & dps' & Hrun & Hz & Hdp & _);
    first [reflexivity | lra | simpl; lra | idtac].
  exists w', zs', dps'. split; [exact Hrun|]. split; [exact Hz | exact Hdp].
Defined.

Lemma LinearMap_track_even_in_Qs_witness :
  LinearMap_track (LinearMap_init 6911 0.0005 (- (0.005)))
    (mkWorld example_ring moving_beam 0 [])
  = LinearMap_track (LinearMap_init 6911 0.0005 0.005)
      (mkWorld example_ring moving_beam 0 []).
Proof.
  apply (LinearMap_track_even_in_Qs 6911 0.0005 0.005
           (mkWorld example_ring moving_beam 0 []) 7 1 [0%R] [1%R]);
    reflexivity.
Defined.

Lemma LinearMap_track_shape_error_witness :
  LinearMap_track (mkLinearMap 6911 0.0005 0.005)
    (mkWorld example_ring ragged_beam 0 [])
  = (mkWorld example_ring ragged_beam 0 [], Raise ValueError).
Proof.
  apply (LinearMap_track_shape_error (mkLinearMap 6911 0.0005 0.005)
           (mkWorld example_ring ragged_beam 0 []) 7 1
           [0; 1]%R [0; 1; 2]%R);
    first [reflexivity | lra | simpl; lra | simpl; lia].
Defined.
